(** * Outline extraction from page layout: a model of [process_pdfs.py]

    The development embeds the heading and title inference of
    [process_pdfs.py] and proves the properties its specification states
    about it.

    Modelling decisions.
    - Font sizes and vertical coordinates are Python floats in the source.
      A finite float is modelled by the rational it denotes ([Q]).
      Comparison, negation and minimum are exact on floats, and so they are
      here.  The difference of two coordinates that [group_boxes_by_y]
      takes is rounded to the nearest binary64 value, ties to even, as the
      float subtraction rounds it ([fsub]); overflow to infinity is left
      out, page coordinates being far from it.  The mean of font sizes is
      the exact mean: the rounding of [sum(sizes) / len(sizes)] is not
      modelled, and nothing below is stated about the value of a mean other
      than on which side of a threshold it falls.
    - A Python [str] is a list of Unicode code points ([str]).  The parts of
      the Unicode database that the source reaches through [str.lower],
      [str.title] and the [\d] class of [re] belong to the Python runtime;
      they are the fields of the class [UnicodeDB], whose laws fix them on
      ASCII text only.
    - The dicts that the source uses as maps with a changing key set (the
      outline items, from which the key [y0] is popped) are [gmap]s; the
      box dicts, whose three keys never change, are records.
    - The layout collaborator ([pdfminer]) is a generator of pages that may
      raise after any number of pages. *)

From Stdlib Require Import QArith Qabs Qpower Lqa ZArith NArith List Permutation.
From Stdlib Require Import PrimFloat SpecFloat FloatOps.
From Stdlib Require Import Sorting.Sorted String Ascii Lia.
From Stdlib Require Import DecimalString.
From stdpp Require Import base gmap strings list sorting.

Import ListNotations.
Local Open Scope Z_scope.

(** ** Text *)

Module Text.

(** A Python [str]: a sequence of code points. *)
Abbreviation codepoint := N (only parsing).
Abbreviation str := (list N) (only parsing).

(** A literal of the source, written as an ASCII string. *)
Definition u (s : string) : str :=
  List.map N_of_ascii (list_ascii_of_string s).

(** [len(text)]. *)
Definition len (s : str) : Z := Z.of_nat (List.length s).

(** [Py_UNICODE_ISSPACE]: the code points [str.strip] removes and the class
    [\s] matches. *)
Definition isspace (c : codepoint) : bool :=
  ((9 <=? c) && (c <=? 13) || (28 <=? c) && (c <=? 32)
   || (c =? 133) || (c =? 160) || (c =? 5760)
   || (8192 <=? c) && (c <=? 8202)
   || (c =? 8232) || (c =? 8233) || (c =? 8239) || (c =? 8287)
   || (c =? 12288))%N.

Fixpoint lstrip (s : str) : str :=
  match s with
  | c :: s' => if isspace c then lstrip s' else s
  | [] => []
  end.

Definition rstrip (s : str) : str := rev (lstrip (rev s)).

(** [text.strip()]. *)
Definition strip (s : str) : str := rstrip (lstrip s).

Definition is_ascii (c : codepoint) : bool := (c <? 128)%N.

Definition ascii_isdigit (c : codepoint) : bool := ((48 <=? c) && (c <=? 57))%N.
Definition ascii_isupper (c : codepoint) : bool := ((65 <=? c) && (c <=? 90))%N.
Definition ascii_islower (c : codepoint) : bool := ((97 <=? c) && (c <=? 122))%N.
Definition ascii_iscased (c : codepoint) : bool := ascii_isupper c || ascii_islower c.

Definition ascii_lower_char (c : codepoint) : codepoint :=
  if ascii_isupper c then (c + 32)%N else c.
Definition ascii_upper_char (c : codepoint) : codepoint :=
  if ascii_islower c then (c - 32)%N else c.

(** [str.title] on ASCII text: a cased character is upper-cased when the
    character before it is not cased, and lower-cased otherwise. *)
Fixpoint ascii_title_from (previous_is_cased : bool) (s : str) : str :=
  match s with
  | [] => []
  | c :: s' =>
      (if previous_is_cased then ascii_lower_char c else ascii_upper_char c)
        :: ascii_title_from (ascii_iscased c) s'
  end.

Definition ascii_title (s : str) : str := ascii_title_from false s.

(** The Unicode tables of the Python runtime that the source consults.
    The laws state what the tables are on ASCII text. *)
Class UnicodeDB := {
  isdecimal : codepoint -> bool;
  lower : str -> str;
  title : str -> str;
  isdecimal_ascii : forall c, is_ascii c = true -> isdecimal c = ascii_isdigit c;
  lower_ascii : forall s, forallb is_ascii s = true ->
                          lower s = List.map ascii_lower_char s;
  title_ascii : forall s, forallb is_ascii s = true -> title s = ascii_title s
}.

(** The tables cut down to ASCII: no digit and no cased letter elsewhere. *)
#[export] Instance ascii_db : UnicodeDB := {|
  isdecimal := ascii_isdigit;
  lower := List.map ascii_lower_char;
  title := ascii_title;
  isdecimal_ascii := fun _ _ => eq_refl;
  lower_ascii := fun _ _ => eq_refl;
  title_ascii := fun _ _ => eq_refl
|}.

(** [prefix in text at position 0]. *)
Fixpoint startswith (p s : str) : bool :=
  match p, s with
  | [], _ => true
  | a :: p', b :: s' => (a =? b)%N && startswith p' s'
  | _ :: _, [] => false
  end.

(** [text.replace(old, new)] for a non-empty [old]: scan from the left; at
    an occurrence of [old] emit [new] and step over the characters of [old]
    ([skip] counts those still to step over). *)
Fixpoint replace_skipping (old new : str) (skip : nat) (s : str) : str :=
  match s with
  | [] => []
  | c :: s' =>
      match skip with
      | S k => replace_skipping old new k s'
      | O =>
          if startswith old s
          then new ++ replace_skipping old new (List.length old - 1) s'
          else c :: replace_skipping old new 0 s'
      end
  end.

Definition replace (old new s : str) : str := replace_skipping old new 0 s.

(** ["\n".join(parts)]. *)
Fixpoint join (sep : str) (parts : list str) : str :=
  match parts with
  | [] => []
  | [p] => p
  | p :: rest => p ++ sep ++ join sep rest
  end.

End Text.

Import Text.

(** ** Numbers *)

(** [a >= b] and [a > b] on sizes and coordinates. *)
Definition Qgeb (a b : Q) : bool := Qle_bool b a.
Definition Qgtb (a b : Q) : bool := negb (Qle_bool a b).

(** [sum(xs)]. *)
Definition Qsum (xs : list Q) : Q := fold_right Qplus (0 : Q)%Q xs.

(** *** Float subtraction

    The binary64 format has a significand of 53 bits and its least exponent
    puts the last bit of a subnormal number at 2^-1074. *)

(** The integer nearest to [n/d], the even one of two that are as near. *)
Definition round_half_even (n : Z) (d : positive) : Z :=
  let f := n / Zpos d in
  let r := n mod Zpos d in
  match 2 * r ?= Zpos d with
  | Lt => f
  | Gt => f + 1
  | Eq => if Z.even f then f else f + 1
  end.

(** The exponent of [n/d]: the [e] with [2^e <= n/d < 2^(e+1)]. *)
Definition floor_log2 (n d : positive) : Z :=
  let k := Z.log2 (Zpos n) - Z.log2 (Zpos d) in
  if Zpos d * 2 ^ Z.max 0 k <=? Zpos n * 2 ^ Z.max 0 (- k) then k else k - 1.

(** [q * 2^e]. *)
Definition Qscale (q : Q) (e : Z) : Q :=
  if 0 <=? e then (Qnum q * 2 ^ e # Qden q)
  else (Qnum q # Qden q * Z.to_pos (2 ^ (- e))).

(** The integer nearest to a rational. *)
Definition nearest (s : Q) : Z := round_half_even (Qnum s) (Qden s).

(** The exponent of the unit in the last place of the floats around the
    positive [n/d]. *)
Definition ulp_exponent (n d : positive) : Z :=
  Z.max (floor_log2 n d - 52) (-1074).

(** The binary64 value nearest to the positive [n/d]: the multiple of the
    unit in the last place that is nearest to it. *)
Definition round64_pos (n d : positive) : Q :=
  Qscale (inject_Z (nearest (Qscale (Zpos n # d) (- ulp_exponent n d))))
         (ulp_exponent n d).

(** Rounding to binary64, to nearest with ties to even. *)
Definition round64 (q : Q) : Q :=
  match Qnum (Qred q) with
  | Z0 => 0%Q
  | Zpos n => Qred (round64_pos n (Qden (Qred q)))
  | Zneg n => Qred (- round64_pos n (Qden (Qred q)))
  end.

(** [a - b] on floats. *)
Definition fsub (a b : Q) : Q := round64 (a - b).

(** The rational that a finite machine float denotes, to compare [fsub]
    with the subtraction of the machine. *)
Definition Q_of_float (f : float) : Q :=
  match Prim2SF f with
  | S754_finite s m e => Qred (Qscale (if s then Zneg m # 1 else Zpos m # 1) e)
  | _ => 0%Q
  end.

(** The floats that the literals [8.3] and [0.3] denote. *)
Definition float_8_3 : Q := 2336242306698445 # 281474976710656.
Definition float_0_3 : Q := 5404319552844595 # 18014398509481984.

(** [min(x, *xs)]: the first of the least elements. *)
Definition Qmin_list (x : Q) (xs : list Q) : Q :=
  fold_left (fun m y => if Qgtb m y then y else m) xs x.

(** ** Configuration *)

(** [FONT_THRESHOLDS]: a dict literal, iterated in insertion order. *)
Definition FONT_THRESHOLDS : list (str * Q) :=
  [ (u "H1", 16%Q); (u "H2", 14%Q); (u "H3", 12%Q); (u "H4", 10%Q) ].

Definition MAX_PAGES : Z := 50.
Definition Y_THRESHOLD : Q := 8%Q.
Definition MIN_TEXT_LENGTH : Z := 4.
Definition EXCLUDED_HEADINGS : gset str :=
  {[ u "figure"; u "table"; u "appendix" ]}.
Definition TITLE_MIN_FONT_SIZE : Q := 9%Q.

(** [d[key]] on a dict kept as an association list; [None] is [KeyError]. *)
Fixpoint getitem {V} (d : list (str * V)) (key : str) : option V :=
  match d with
  | [] => None
  | (k, v) :: d' => if decide (k = key) then Some v else getitem d' key
  end.

(** ** Classifier *)

Section Classifier.
Context {U : UnicodeDB}.

(** The class [[\d\s\-–.():]]. *)
Definition in_class (c : codepoint) : bool :=
  (isdecimal c || isspace c
   || (c =? 45) || (c =? 8211) || (c =? 46)
   || (c =? 40) || (c =? 41) || (c =? 58))%N.

(** [$]: the end of the text, or just before a newline that ends it. *)
Definition at_dollar (s : str) : bool :=
  match s with
  | [] => true
  | [c] => (c =? 10)%N
  | _ => false
  end.

(** The rest of [[...]+$] once one character of the class is consumed: the
    greedy repetition takes a further character when the rest then
    matches, and otherwise tries [$] where it stands. *)
Fixpoint match_more (s : str) : bool :=
  match s with
  | [] => true
  | c :: s' => (in_class c && match_more s') || at_dollar s
  end.

(** [re.match(r'^[\d\s\-–.():]+$', text)], as a truth value. *)
Definition re_match_numeric (text_ : str) : bool :=
  match text_ with
  | [] => false
  | c :: s' => in_class c && match_more s'
  end.

Definition is_heading (text_ : str) (avg_size : Q) : bool :=
  let text_ := lower (strip text_) in
  (MIN_TEXT_LENGTH <=? len text_)
  && match getitem FONT_THRESHOLDS (u "H3") with
     | Some h3 => Qgeb avg_size h3
     | None => false (* KeyError: excluded by the literal table *)
     end
  && negb (re_match_numeric text_)
  && negb (bool_decide (text_ ∈ EXCLUDED_HEADINGS)).

Definition is_potential_title (text_ : str) (avg_size : Q) : bool :=
  let text_ := strip text_ in
  (MIN_TEXT_LENGTH <=? len text_)
  && Qgeb avg_size TITLE_MIN_FONT_SIZE
  && negb (re_match_numeric text_).

End Classifier.

(** [next((level for level, size in FONT_THRESHOLDS.items()
          if avg_size >= size), None)]. *)
Definition get_heading_level (avg_size : Q) : option str :=
  fst <$> List.find (fun entry => Qgeb avg_size (snd entry)) FONT_THRESHOLDS.

(** [int(level[1])], the rank that [outline_to_markdown] indents by;
    [None] when the tag has no second character or it is no ASCII digit. *)
Definition level_rank (level : str) : option Z :=
  match level with
  | _ :: d :: _ => if ascii_isdigit d then Some (Z.of_N d - 48) else None
  | _ => None
  end.

(** ** Layout *)

(** What the collaborator yields.  A text container has a text, a vertical
    origin and lines of items; an item is a character with a size or an
    annotation without one.  Every other layout element is [LTOther]. *)
Inductive LayoutItem := LTChar (size_ : Q) | LTAnno.

Inductive Element :=
| LTTextContainer (get_text : str) (y0 : Q) (lines : list (list LayoutItem))
| LTOther.

Definition char_sizes (lines : list (list LayoutItem)) : list Q :=
  List.concat
    (List.map (fun line =>
       List.concat (List.map (fun c => match c with
                                       | LTChar sz => [sz]
                                       | LTAnno => []
                                       end) line)) lines).

(** [sum(sizes) / len(sizes) if sizes else 0.0].  The quotient is the exact
    mean of the sizes; the source rounds the sum and the quotient. *)
Definition average_fontsize (lines : list (list LayoutItem)) : Q :=
  match char_sizes lines with
  | [] => 0%Q
  | sizes => (Qsum sizes / inject_Z (Z.of_nat (List.length sizes)))%Q
  end.

(** The dict [{"text": ..., "size": ..., "y0": ...}]. *)
Record Box := { box_text : str; box_size : Q; box_y0 : Q }.

(** The list comprehension that builds [boxes] from a page. *)
Fixpoint boxes_of_layout (layout : list Element) : list Box :=
  match layout with
  | [] => []
  | LTTextContainer t y ls :: rest =>
      if Qgtb (average_fontsize ls) TITLE_MIN_FONT_SIZE
      then {| box_text := strip t; box_size := average_fontsize ls; box_y0 := y |}
             :: boxes_of_layout rest
      else boxes_of_layout rest
  | LTOther :: rest => boxes_of_layout rest
  end.

(** ** Line grouper *)

(** A stable sort, which is what [sorted] and [list.sort] are.
    [before y x] says that [y] sorts strictly before [x]; an element is
    inserted in front of the sorted rest and moves behind exactly those
    that sort strictly before it, so elements that compare equal keep
    their order. *)
Section StableSort.
Context {A : Type} (before : A -> A -> bool).

Fixpoint insert_sorted (x : A) (l : list A) : list A :=
  match l with
  | [] => [x]
  | y :: l' => if before y x then y :: insert_sorted x l' else x :: y :: l'
  end.

Definition stable_sort (l : list A) : list A := fold_right insert_sorted [] l.

(** [a] may stand in front of [b]: [b] does not sort strictly before [a]. *)
Definition in_order (a b : A) : Prop := before b a = false.

End StableSort.

(** [sorted(boxes, key=lambda b: b['y0'], reverse=True)]. *)
Definition higher (a b : Box) : bool := Qgtb (box_y0 a) (box_y0 b).
Definition sort_boxes (boxes : list Box) : list Box := stable_sort higher boxes.

(** [abs(box['y0'] - last_y) <= y_thresh], on the float difference. *)
Definition near (y_thresh last_y : Q) (box : Box) : bool :=
  Qle_bool (Qabs (fsub (box_y0 box) last_y)) y_thresh.

(** The [for box in boxes[1:]] loop, on its three variables. *)
Fixpoint walk (y_thresh : Q) (rest : list Box)
    (groups : list (list Box)) (current_group : list Box) (last_y : Q)
    : list (list Box) * list Box :=
  match rest with
  | [] => (groups, current_group)
  | box :: rest' =>
      if near y_thresh last_y box
      then walk y_thresh rest' groups (current_group ++ [box]) (box_y0 box)
      else walk y_thresh rest' (groups ++ [current_group]) [box] (box_y0 box)
  end.

Definition group_boxes_by_y_with (y_thresh : Q) (boxes : list Box)
    : list (list Box) :=
  match boxes with
  | [] => []
  | _ :: _ =>
      match sort_boxes boxes with
      | [] => [] (* IndexError at boxes[0]: a sorted non-empty list is non-empty *)
      | first :: rest =>
          let '(groups, current_group) :=
            walk y_thresh rest [] [first] (box_y0 first) in
          match current_group with
          | [] => groups
          | _ :: _ => groups ++ [current_group]
          end
      end
  end.

(** [group_boxes_by_y(boxes)] with the default [y_thresh]. *)
Definition group_boxes_by_y (boxes : list Box) : list (list Box) :=
  group_boxes_by_y_with Y_THRESHOLD boxes.

(** The grouping as the specification words it, by recursion on the sorted
    sequence: a box shares the group of the box after it exactly when the
    box after it passes the test [near] against it; otherwise it closes a
    group of its own in front of the groups of the rest. *)
Fixpoint chained_groups (y_thresh : Q) (l : list Box) : list (list Box) :=
  match l with
  | [] => []
  | x :: l' =>
      match l' with
      | [] => [[x]]
      | y :: _ =>
          match chained_groups y_thresh l' with
          | g :: gs =>
              if near y_thresh (box_y0 x) y then (x :: g) :: gs
              else [x] :: g :: gs
          | [] => [[x]]
          end
      end
  end.

(** A run of boxes each passing the test [near] against the one before
    it. *)
Fixpoint linked (y_thresh : Q) (l : list Box) : Prop :=
  match l with
  | [] => True
  | x :: l' =>
      match l' with
      | [] => True
      | y :: _ => near y_thresh (box_y0 x) y = true /\ linked y_thresh l'
      end
  end.

(** ** Exceptions *)

(** The exceptions that [except Exception] catches. *)
Inductive exn :=
| CollaboratorError (message : string)
| KeyError (key : string)
| TypeError.

(** A computation that returns or raises. *)
Definition raising (A : Type) : Type := exn + A.

Definition raise {A} (e : exn) : raising A := inl e.

#[export] Instance raising_ret : MRet raising := fun _ a => inr a.
#[export] Instance raising_bind : MBind raising := fun _ _ k m =>
  match m with
  | inl e => inl e
  | inr a => k a
  end.

Fixpoint traverse {A B} (f : A -> raising B) (l : list A) : raising (list B) :=
  match l with
  | [] => mret []
  | a :: l' => b ← f a; bs ← traverse f l'; mret (b :: bs)
  end.

(** A generator: it yields items until it stops or raises. *)
Inductive generator (A : Type) :=
| Stop
| Yield (item : A) (rest : generator A)
| Raise (e : exn).
Arguments Stop {A}.
Arguments Yield {A} item rest.
Arguments Raise {A} e.

(** [list(pages)]: runs the generator to its end. *)
Fixpoint list_of {A} (g : generator A) : raising (list A) :=
  match g with
  | Stop => mret []
  | Yield a g' => l ← list_of g'; mret (a :: l)
  | Raise e => raise e
  end.

(** The generator that yields the items of a list and stops. *)
Fixpoint generator_of {A} (l : list A) : generator A :=
  match l with
  | [] => Stop
  | a :: l' => Yield a (generator_of l')
  end.

(** ** Outline builder *)

Inductive value := VStr (s : str) | VInt (n : Z) | VFloat (q : Q).

(** [l[:n]]. *)
Definition slice_to {A} (n : Z) (l : list A) : list A :=
  if 0 <=? n then firstn (Z.to_nat n) l
  else firstn (Z.to_nat (Z.of_nat (List.length l) + n)) l.

(** [enumerate(l)], counting from [start]. *)
Fixpoint enumerate_from {A} (start : Z) (l : list A) : list (Z * A) :=
  match l with
  | [] => []
  | a :: l' => (start, a) :: enumerate_from (start + 1) l'
  end.

(** The variables of the page loop. *)
Record State := {
  outline : list (gmap string value);
  title_candidate : option str;
  largest_size : Q;
  is_first_text : bool
}.

Definition initial_state : State :=
  {| outline := []; title_candidate := None; largest_size := 0%Q;
     is_first_text := true |}.

(** The three values the loop computes from a group.  [avg_size_of] is the
    exact mean of the box sizes; the source rounds the sum and the
    quotient. *)
Definition merged_text_of (group : list Box) : str :=
  join [10%N] (List.map box_text group).
Definition avg_size_of (group : list Box) : Q :=
  (Qsum (List.map box_size group) / inject_Z (Z.of_nat (List.length group)))%Q.
Definition min_y0_of (first : Box) (others : list Box) : Q :=
  Qmin_list (box_y0 first) (List.map box_y0 others).

(** The dict appended to [outline]. *)
Definition outline_item (level text_ : str) (page : Z) (y : Q)
    : gmap string value :=
  <["level" := VStr level]> (<["text" := VStr text_]>
    (<["page" := VInt page]> (<["y0" := VFloat y]> ∅))).

Section Builder.
Context {U : UnicodeDB}.

(** The body of [for group in group_boxes_by_y(boxes)]. *)
Definition process_group (page_num : Z) (st : State) (group : list Box) : State :=
  match group with
  | [] => st
  | first :: others =>
      let merged_text := merged_text_of group in
      let avg_size := avg_size_of group in
      if (page_num =? 0) && is_first_text st
         && is_potential_title merged_text avg_size
      then
        if Qgtb avg_size (largest_size st)
        then {| outline := outline st; title_candidate := Some merged_text;
                largest_size := avg_size; is_first_text := false |}
        else {| outline := outline st; title_candidate := title_candidate st;
                largest_size := largest_size st; is_first_text := false |}
      else if is_heading merged_text avg_size
      then
        match get_heading_level avg_size with
        | Some (c :: level') =>
            {| outline := outline st
                 ++ [outline_item (c :: level') merged_text (page_num + 1)
                       (min_y0_of first others)];
               title_candidate := title_candidate st;
               largest_size := largest_size st;
               is_first_text := is_first_text st |}
        | _ => st
        end
      else st
  end.

(** The body of the page loop. *)
Definition process_page (st : State) (numbered : Z * list Element) : State :=
  let '(page_num, layout) := numbered in
  fold_left (process_group page_num)
    (group_boxes_by_y (boxes_of_layout layout)) st.

Definition process_pages (max_pages : Z) (pages : list (list Element)) : State :=
  fold_left process_page (enumerate_from 0 (slice_to max_pages pages))
    initial_state.

(** The key [(x['page'], -x['y0'])] of an outline item. *)
Definition sort_key (item : gmap string value) : raising (Z * Q) :=
  match item !! "page" with
  | None => raise (KeyError "page")
  | Some page =>
      match item !! "y0" with
      | None => raise (KeyError "y0")
      | Some (VFloat y) =>
          match page with
          | VInt p => mret (p, (- y)%Q)
          | _ => raise TypeError
          end
      | Some _ => raise TypeError
      end
  end.

(** [<] on the keys, as tuples compare. *)
Definition key_lt (a b : Z * Q) : bool :=
  (fst a <? fst b) || ((fst a =? fst b) && Qgtb (snd b) (snd a)).

(** [outline.sort(key=...)]: the keys are computed first, then the list is
    sorted on them. *)
Definition sort_outline (items : list (gmap string value))
    : raising (list (gmap string value)) :=
  keyed ← traverse (fun item => k ← sort_key item; mret (k, item)) items;
  mret (List.map snd (stable_sort (fun a b => key_lt (fst a) (fst b)) keyed)).

(** [item.pop('y0', None)]. *)
Definition pop_y0 (item : gmap string value) : gmap string value :=
  delete "y0" item.

(** [file_name.replace("_", " ").replace(".pdf", "").title()]. *)
Definition default_title (file_name : str) : str :=
  title (replace (u ".pdf") (u "") (replace (u "_") (u " ") file_name)).

(** [title_candidate or default]: [None] and the empty text are false. *)
Definition title_or (candidate : option str) (default : str) : str :=
  match candidate with
  | Some (c :: t) => c :: t
  | _ => default
  end.

(** The dict that [extract_pdfminer_outline] returns. *)
Record Outline := { out_title : str; out_outline : list (gmap string value) }.

(** The [try] block. *)
Definition try_block (pages : generator (list Element)) (file_name : str)
    (max_pages : Z) : raising Outline :=
  all_pages ← list_of pages;
  let st := process_pages max_pages all_pages in
  sorted ← sort_outline (outline st);
  mret {| out_title := title_or (title_candidate st) (default_title file_name);
         out_outline := List.map pop_y0 sorted |}.

(** [extract_pdfminer_outline(file_bytes, file_name, max_pages)], on the
    pages that the collaborator generates from [file_bytes]. *)
Definition extract_pdfminer_outline_with (pages : generator (list Element))
    (file_name : str) (max_pages : Z) : Outline :=
  match try_block pages file_name max_pages with
  | inr result => result
  | inl _ => {| out_title := file_name; out_outline := [] |}
  end.

(** The call with the default [max_pages], as [process_pdfs] makes it. *)
Definition extract_pdfminer_outline (pages : generator (list Element))
    (file_name : str) : Outline :=
  extract_pdfminer_outline_with pages file_name MAX_PAGES.

End Builder.

(** * Notions used to state the properties *)

(** ** Groups *)

(** [a] is at least as high on the page as [b]. *)
Definition not_below (a b : Box) : Prop := (box_y0 b <= box_y0 a)%Q.

(** What [group_boxes_by_y] returns from the final loop variables. *)
Definition close_groups (state : list (list Box) * list Box) : list (list Box) :=
  match snd state with
  | [] => fst state
  | _ :: _ => fst state ++ [snd state]
  end.

(** The boxes above, below and within the band of the page from [lo] up
    to [hi]. *)
Definition above (hi : Q) (b : Box) : bool := Qgtb (box_y0 b) hi.

Definition below (lo : Q) (b : Box) : bool := Qgtb lo (box_y0 b).

Definition in_band (lo hi : Q) (b : Box) : bool :=
  Qle_bool lo (box_y0 b) && Qle_bool (box_y0 b) hi.

(** ** The builder *)

(** The state with items appended to its outline. *)
Definition append_items (st : State) (items : list (gmap string value)) : State :=
  {| outline := outline st ++ items;
     title_candidate := title_candidate st;
     largest_size := largest_size st;
     is_first_text := is_first_text st |}.

(** The groups of a page. *)
Definition clusters_of (layout : list Element) : list (list Box) :=
  group_boxes_by_y (boxes_of_layout layout).

Section BuilderNotions.
Context {U : UnicodeDB}.

(** What heading classification alone appends for a group on the page
    numbered [page_num] from 0. *)
Definition heading_items (page_num : Z) (group : list Box)
    : list (gmap string value) :=
  match group with
  | [] => []
  | first :: others =>
      if is_heading (merged_text_of group) (avg_size_of group)
      then match get_heading_level (avg_size_of group) with
           | Some (c :: level') =>
               [outline_item (c :: level') (merged_text_of group)
                  (page_num + 1) (min_y0_of first others)]
           | _ => []
           end
      else []
  end.

(** A group that passes the title test. *)
Definition passes_title (group : list Box) : bool :=
  match group with
  | [] => false
  | _ :: _ => is_potential_title (merged_text_of group) (avg_size_of group)
  end.

(** The items of the first page: the first group that passes the title test
    is left out, every other group is heading-classified. *)
Fixpoint first_page_items (groups : list (list Box)) : list (gmap string value) :=
  match groups with
  | [] => []
  | g :: groups' =>
      if passes_title g then flat_map (heading_items 0) groups'
      else heading_items 0 g ++ first_page_items groups'
  end.

(** The items of pages numbered from [start], all heading-classified. *)
Fixpoint heading_items_of_pages (start : Z) (pages : list (list Element))
    : list (gmap string value) :=
  match pages with
  | [] => []
  | layout :: pages' =>
      flat_map (heading_items start) (clusters_of layout)
      ++ heading_items_of_pages (start + 1) pages'
  end.

End BuilderNotions.

(** An item as the builder appends it, on a page between [lo] and [hi]. *)
Definition item_on_pages (lo hi : Z) (item : gmap string value) : Prop :=
  exists level text_ page y,
    item = outline_item level text_ page y /\ lo <= page <= hi.

(** [a] may stand in front of [b] in the sorted outline: its page is not
    later, and on the same page its [y0] is not lower. *)
Definition entry_order (a b : gmap string value) : Prop :=
  exists pa ya pb yb,
    a !! "page" = Some (VInt pa) /\ a !! "y0" = Some (VFloat ya)
    /\ b !! "page" = Some (VInt pb) /\ b !! "y0" = Some (VFloat yb)
    /\ pa <= pb /\ (pa = pb -> (yb <= ya)%Q).

(** An item with the key that [sort_key] computes for it. *)
Definition keyed (item : gmap string value) : (Z * Q) * gmap string value :=
  (match sort_key item with inr k => k | inl _ => (0, 0%Q) end, item).

(** The comparison of [sort_outline] on keyed items. *)
Definition before_key (a b : (Z * Q) * gmap string value) : bool :=
  key_lt (fst a) (fst b).

(** ** ASCII documents *)

(** Texts, layout elements, pages and boxes whose characters are all
    ASCII. *)
Definition ascii_text (s : str) : Prop := forallb is_ascii s = true.

Definition ascii_element (e : Element) : bool :=
  match e with
  | LTTextContainer t _ _ => forallb is_ascii t
  | LTOther => true
  end.

Definition ascii_pages (pages : list (list Element)) : bool :=
  forallb (forallb ascii_element) pages.

Definition ascii_boxes (boxes : list Box) : Prop :=
  Forall (fun b => ascii_text (box_text b)) boxes.

(** ** The default title as specified *)

(** [s.endswith(suffix)]. *)
Definition endswith (suffix s : str) : bool := startswith (rev suffix) (rev s).

(** The file name without its extension [.pdf]. *)
Definition strip_extension (file_name : str) : str :=
  if endswith (u ".pdf") file_name
  then firstn (List.length file_name - 4) file_name
  else file_name.

(** The default title as the specification words it: strip the extension,
    replace underscores with spaces, title-case. *)
Definition title_as_specified {U : UnicodeDB} (file_name : str) : str :=
  title (replace (u "_") (u " ") (strip_extension file_name)).

(** [old in s]. *)
Fixpoint occurs (old s : str) : bool :=
  match s with
  | [] => startswith old []
  | _ :: s' => startswith old s || occurs old s'
  end.

(** ** Sample documents *)

(** A text container whose characters all have one size. *)
Definition text_element (t : string) (size_ y : Z) : Element :=
  LTTextContainer (u t) (inject_Z y) [[LTChar (inject_Z size_); LTAnno]].

Definition sample_box (t : string) (size_ y : Z) : Box :=
  {| box_text := u t; box_size := inject_Z size_; box_y0 := inject_Z y |}.

(** A first page whose topmost text is too short for a title. *)
Definition two_cluster_page : list Element :=
  [text_element "ab" 20 700; text_element "Real Title" 18 650].

Definition heading_page : list Element :=
  [text_element "1.1 Background" 14 600; text_element "Page 2" 8 20].

Definition sample_pages : list (list Element) := [two_cluster_page; heading_page].

(** A document whose first page has no text that passes the title test. *)
Definition untitled_pages : list (list Element) :=
  [[text_element "ab" 20 700]; heading_page].

(** * Further notions

    Notions used to state properties of the code beyond the specification,
    and the functions of [process_pdfs.py] not modelled above. *)

(** ** Groups *)

(** Consecutive groups are apart: the last box of a group and the first box
    of the next are not within the threshold. *)
Fixpoint separated (y_thresh : Q) (groups : list (list Box)) : Prop :=
  match groups with
  | [] => True
  | g1 :: rest =>
      match rest with
      | [] => True
      | g2 :: _ =>
          (forall a b, last g1 = Some a -> head g2 = Some b ->
                       near y_thresh (box_y0 a) b = false)
          /\ separated y_thresh rest
      end
  end.

(** ** Layout *)

(** An element that the list comprehension of the page loop keeps: a text
    container whose mean character size is above [TITLE_MIN_FONT_SIZE]. *)
Definition qualifies (e : Element) : bool :=
  match e with
  | LTTextContainer _ _ ls => Qgtb (average_fontsize ls) TITLE_MIN_FONT_SIZE
  | LTOther => false
  end.

(** ** The builder *)

(** The item that heading classification makes of the group [g] on the page
    numbered [page_num] from 0. *)
Definition from_cluster {U : UnicodeDB} (page_num : Z) (g : list Box)
    (item : gmap string value) : Prop :=
  exists first others level,
    g = first :: others
    /\ is_heading (merged_text_of g) (avg_size_of g) = true
    /\ get_heading_level (avg_size_of g) = Some level
    /\ item = outline_item level (merged_text_of g) (page_num + 1)
                (min_y0_of first others).

(** ** Generators *)

(** The generator that yields the items of a list and then goes on as
    [rest]. *)
Definition yield_all {A} (items : list A) (rest : generator A) : generator A :=
  fold_right Yield rest items.

(** ** Order of discovery *)

(** Every box of [g1] is at least as high on the page as every box of
    [g2]. *)
Definition group_above (g1 g2 : list Box) : Prop :=
  forall b1 b2, In b1 g1 -> In b2 g2 -> not_below b1 b2.

(** The item [a] is in order in front of [b]: [list.sort] leaves [a] in
    front when it comes first. *)
Definition item_in_order (a b : gmap string value) : Prop :=
  in_order before_key (keyed a) (keyed b).

(** ** Markdown rendering *)

(** What [outline_to_markdown] can raise: [KeyError] for a missing key,
    [TypeError] for a level that is no text, [IndexError] for a level of
    fewer than two characters, [ValueError] for a second character that
    [int] does not read. *)
Inductive render_error :=
| MissingKey (key : string)
| NotSubscriptable
| IndexOutOfRange
| NotAnInteger.

(** What the Python runtime supplies to the rendering: [int] on a text of
    one character ([None] is [ValueError]) and the text of a float.  The
    law fixes [int] on ASCII. *)
Class Formatting := {
  int_of_char : codepoint -> option Z;
  repr_float : Q -> str;
  int_of_char_ascii :
    forall c, is_ascii c = true ->
              int_of_char c
              = if ascii_isdigit c then Some (Z.of_N c - 48) else None
}.

(** [int] on ASCII alone, and no text for floats. *)
#[export] Instance ascii_formatting : Formatting := {|
  int_of_char := fun c => if ascii_isdigit c then Some (Z.of_N c - 48) else None;
  repr_float := fun _ => [];
  int_of_char_ascii := fun _ _ => eq_refl
|}.

(** [str(n)] for an integer. *)
Definition str_of_int (n : Z) : str := u (NilZero.string_of_int (Z.to_int n)).

Fixpoint repeat_str (s : str) (n : nat) : str :=
  match n with
  | O => []
  | S k => s ++ repeat_str s k
  end.

(** [s * n]: empty when [n] is not positive. *)
Definition str_times (s : str) (n : Z) : str := repeat_str s (Z.to_nat n).

(** The results of [f] on the items of a list in order, up to the first
    that raises. *)
Fixpoint collect {E A B} (f : A -> E + B) (l : list A) : E + list B :=
  match l with
  | [] => inr []
  | a :: l' =>
      match f a with
      | inl e => inl e
      | inr b =>
          match collect f l' with
          | inl e => inl e
          | inr bs => inr (b :: bs)
          end
      end
  end.

Section Markdown.
Context {F : Formatting}.

(** A value in an f-string. *)
Definition format_value (v : value) : str :=
  match v with
  | VStr s => s
  | VInt n => str_of_int n
  | VFloat q => repr_float q
  end.

(** The f-string of [outline_to_markdown] for one item; its three fields
    are evaluated from left to right. *)
Definition render_item (item : gmap string value) : render_error + str :=
  match item !! "level" with
  | None => inl (MissingKey "level")
  | Some (VStr level) =>
      match level with
      | _ :: c :: _ =>
          match int_of_char c with
          | None => inl NotAnInteger
          | Some rank =>
              match item !! "text" with
              | None => inl (MissingKey "text")
              | Some text_ =>
                  match item !! "page" with
                  | None => inl (MissingKey "page")
                  | Some page =>
                      inr (str_times (u "  ") (rank - 1) ++ u "- "
                           ++ format_value text_ ++ u " (Page "
                           ++ format_value page ++ u ")")
                  end
              end
          end
      | _ => inl IndexOutOfRange
      end
  | Some _ => inl NotSubscriptable
  end.

Definition outline_to_markdown (outline_ : list (gmap string value))
    : render_error + str :=
  match collect render_item outline_ with
  | inl e => inl e
  | inr lines => inr (join [10%N] lines)
  end.

End Markdown.

(** An item that [outline_to_markdown] can render. *)
Definition renderable {F : Formatting} (item : gmap string value) : Prop :=
  exists level c rank,
    item !! "level" = Some (VStr level)
    /\ level !! 1%nat = Some c
    /\ int_of_char c = Some rank
    /\ is_Some (item !! "text")
    /\ is_Some (item !! "page").

(** The line of an entry of level [level]: two spaces for each rank below
    the first, a dash, the text and the page. *)
Definition markdown_line (indent : nat) (text_ : str) (page : Z) : str :=
  repeat_str (u "  ") indent ++ u "- " ++ text_ ++ u " (Page "
  ++ str_of_int page ++ u ")".

(** ** The batch driver *)

(** What the file system and [json.dump] raise. *)
Inductive io_error :=
| OSError (message : string)
| DumpError (message : string).

(** A file that [glob] finds: its name and stem as [pathlib] gives them,
    what opening and reading it gives (it raises, or it gives the bytes,
    taken here as the pages that the collaborator generates from them), and
    what opening and writing its output raises, if anything. *)
Record PdfFile := {
  pdf_name : str;
  pdf_stem : str;
  pdf_read : io_error + generator (list Element);
  pdf_dump : option io_error
}.

(** What [process_pdfs] does to the world, in order: the lines it prints
    and the files it writes in full. *)
Inductive Event :=
| PrintNoPdfFiles
| PrintErrorProcessing (file_name : str) (e : exn)
| WriteJson (json_name : str) (result : Outline)
| PrintProcessed (file_name json_name : str)
| PrintErrorProcessingFiles (e : io_error).

Section Batch.
Context {U : UnicodeDB}.

(** The line that [extract_pdfminer_outline] prints when its [try] block
    raises. *)
Definition extraction_log (pages : generator (list Element)) (file_name : str)
    : list Event :=
  match try_block pages file_name MAX_PAGES with
  | inl e => [PrintErrorProcessing file_name e]
  | inr _ => []
  end.

(** The [for pdf_file in pdf_files] loop; an exception leaves it for the
    handler of [process_pdfs]. *)
Fixpoint process_files (files : list PdfFile) : list Event :=
  match files with
  | [] => []
  | f :: rest =>
      match pdf_read f with
      | inl e => [PrintErrorProcessingFiles e]
      | inr pages =>
          let result := extract_pdfminer_outline pages (pdf_name f) in
          let json_name := pdf_stem f ++ u "_outline.json" in
          extraction_log pages (pdf_name f)
          ++ match pdf_dump f with
             | Some e => [PrintErrorProcessingFiles e]
             | None =>
                 WriteJson json_name result
                   :: PrintProcessed (pdf_name f) json_name
                   :: process_files rest
             end
      end
  end.

(** [process_pdfs()], on what creating the output directory and listing
    the input directory give: an exception, or the files found. *)
Definition process_pdfs (found : io_error + list PdfFile) : list Event :=
  match found with
  | inl e => [PrintErrorProcessingFiles e]
  | inr [] => [PrintNoPdfFiles]
  | inr (f :: rest) => process_files (f :: rest)
  end.

End Batch.

(** The files written in the course of some events. *)
Fixpoint outputs (events : list Event) : list (str * Outline) :=
  match events with
  | [] => []
  | WriteJson json_name result :: events' => (json_name, result) :: outputs events'
  | _ :: events' => outputs events'
  end.

(** A file that is read and whose output is written without an
    exception. *)
Definition io_succeeds (f : PdfFile) : Prop :=
  (exists pages, pdf_read f = inr pages) /\ pdf_dump f = None.

(** A file on which reading, or writing the output, raises [e]. *)
Definition io_raises (f : PdfFile) (e : io_error) : Prop :=
  pdf_read f = inl e \/ ((exists pages, pdf_read f = inr pages) /\ pdf_dump f = Some e).

(** Sample files: one that is extracted, one on which the collaborator
    fails, one that cannot be read. *)
Definition sample_file : PdfFile :=
  {| pdf_name := u "sample.pdf"; pdf_stem := u "sample";
     pdf_read := inr (generator_of sample_pages); pdf_dump := None |}.

Definition malformed_file : PdfFile :=
  {| pdf_name := u "malformed.pdf"; pdf_stem := u "malformed";
     pdf_read := inr (Raise (CollaboratorError "No /Root object"));
     pdf_dump := None |}.

Definition unreadable_file : PdfFile :=
  {| pdf_name := u "locked.pdf"; pdf_stem := u "locked";
     pdf_read := inl (OSError "Permission denied"); pdf_dump := None |}.

(** * Properties *)

(** ** Comparisons on [Q] *)

Lemma Qgeb_true (a b : Q) : Qgeb a b = true <-> (b <= a)%Q.
Proof. unfold Qgeb. apply Qle_bool_iff. Qed.

Lemma Qgeb_false (a b : Q) : Qgeb a b = false <-> (a < b)%Q.
Proof.
  unfold Qgeb. split; intros H.
  - apply Qnot_le_lt. intros Hle. apply Qle_bool_iff in Hle. congruence.
  - destruct (Qle_bool b a) eqn:E; [|reflexivity].
    apply Qle_bool_iff in E. lra.
Qed.

Lemma Qgtb_true (a b : Q) : Qgtb a b = true <-> (b < a)%Q.
Proof.
  unfold Qgtb. rewrite negb_true_iff. apply (Qgeb_false b a).
Qed.

Lemma Qgtb_false (a b : Q) : Qgtb a b = false <-> (a <= b)%Q.
Proof.
  unfold Qgtb. rewrite negb_false_iff. apply (Qgeb_true b a).
Qed.

(** ** The classifier *)

Section ClassifierFacts.
Context {U : UnicodeDB}.

Lemma in_class_newline : in_class 10%N = true.
Proof. unfold in_class. destruct (isdecimal 10%N); reflexivity. Qed.

Lemma match_more_forallb (s : str) : match_more s = forallb in_class s.
Proof.
  induction s as [|c s' IH]; [reflexivity|].
  cbn [match_more forallb]. rewrite IH.
  destruct s' as [|d s''].
  - cbn. rewrite andb_true_r.
    destruct (N.eqb_spec c 10) as [->|_].
    + rewrite in_class_newline. reflexivity.
    + apply orb_false_r.
  - cbn [at_dollar]. apply orb_false_r.
Qed.

(** The pattern matches exactly the non-empty texts made of characters of
    the class: the newline that [$] tolerates is itself in the class. *)
Lemma re_match_numeric_spec (s : str) :
  re_match_numeric s = true <->
  s <> [] /\ Forall (fun c => in_class c = true) s.
Proof.
  destruct s as [|c s'].
  - cbn. split; [discriminate|intros [H _]; congruence].
  - cbn [re_match_numeric]. rewrite match_more_forallb.
    change (in_class c && forallb in_class s') with (forallb in_class (c :: s')).
    rewrite forallb_forall, List.Forall_forall.
    split; [intros H; split; [discriminate|exact H]|intros [_ H]; exact H].
Qed.

Lemma getitem_H3 : getitem FONT_THRESHOLDS (u "H3") = Some 12%Q.
Proof. reflexivity. Qed.


Lemma is_heading_size (text_ : str) (avg_size : Q) :
  is_heading text_ avg_size = true -> (12 <= avg_size)%Q.
Proof.
  unfold is_heading. rewrite getitem_H3. cbv zeta.
  rewrite !andb_true_iff, Qgeb_true. tauto.
Qed.


End ClassifierFacts.

(** ** Level assignment *)

Lemma find_first {A} (f : A -> bool) (l : list A) (x : A) :
  List.find f l = Some x <->
  exists pre post, l = pre ++ x :: post /\ f x = true
                   /\ Forall (fun e => f e = false) pre.
Proof.
  induction l as [|a l IH]; cbn [List.find].
  - split; [discriminate|]. intros (pre & post & E & _).
    destruct pre; discriminate.
  - destruct (f a) eqn:Fa.
    + split.
      * intros [= <-]. exists [], l. repeat split; [assumption|constructor].
      * intros (pre & post & E & Fx & Hpre).
        destruct pre as [|b pre]; cbn in E; injection E as <- E'.
        -- reflexivity.
        -- apply Forall_cons_1 in Hpre. destruct Hpre as [Hb _]. congruence.
    + rewrite IH. split.
      * intros (pre & post & -> & Fx & Hpre).
        exists (a :: pre), post. repeat split; [assumption|].
        constructor; assumption.
      * intros (pre & post & E & Fx & Hpre).
        destruct pre as [|b pre]; cbn in E; injection E as <- E'.
        -- congruence.
        -- apply Forall_cons_1 in Hpre. destruct Hpre as [_ Hpre].
           exists pre, post. repeat split; assumption.
Qed.

Lemma get_heading_level_cases (s : Q) :
  ((16 <= s)%Q /\ get_heading_level s = Some (u "H1"))
  \/ ((14 <= s < 16)%Q /\ get_heading_level s = Some (u "H2"))
  \/ ((12 <= s < 14)%Q /\ get_heading_level s = Some (u "H3"))
  \/ ((10 <= s < 12)%Q /\ get_heading_level s = Some (u "H4"))
  \/ ((s < 10)%Q /\ get_heading_level s = None).
Proof.
  unfold get_heading_level, FONT_THRESHOLDS. cbn [List.find snd].
  destruct (Qgeb s 16) eqn:E1; [apply Qgeb_true in E1|apply Qgeb_false in E1].
  { left. split; [assumption|reflexivity]. }
  destruct (Qgeb s 14) eqn:E2; [apply Qgeb_true in E2|apply Qgeb_false in E2].
  { right; left. repeat split; assumption. }
  destruct (Qgeb s 12) eqn:E3; [apply Qgeb_true in E3|apply Qgeb_false in E3].
  { right; right; left. repeat split; assumption. }
  destruct (Qgeb s 10) eqn:E4; [apply Qgeb_true in E4|apply Qgeb_false in E4].
  { right; right; right; left. repeat split; assumption. }
  right; right; right; right. split; [assumption|reflexivity].
Qed.

(** C4.  The threshold table is in descending order of threshold;
    [get_heading_level] returns the level of the first entry whose
    threshold is at most the size; and for sizes [s1 <= s2] for which
    levels resolve, the rank of the level of [s2] is at most that of
    [s1]. *)
Theorem get_heading_level_monotone :
  FONT_THRESHOLDS
  = [(u "H1", 16%Q); (u "H2", 14%Q); (u "H3", 12%Q); (u "H4", 10%Q)]
  /\ StronglySorted (fun a b => (snd b < snd a)%Q) FONT_THRESHOLDS
  /\ (forall (s : Q) (level : str),
        get_heading_level s = Some level <->
        exists pre t post,
          FONT_THRESHOLDS = pre ++ (level, t) :: post
          /\ (t <= s)%Q
          /\ Forall (fun e => (s < snd e)%Q) pre)
  /\ (forall (s1 s2 : Q) (l1 l2 : str),
        (s1 <= s2)%Q ->
        get_heading_level s1 = Some l1 ->
        get_heading_level s2 = Some l2 ->
        exists r1 r2,
          level_rank l1 = Some r1 /\ level_rank l2 = Some r2 /\ r2 <= r1).
Proof.
  split; [reflexivity|]. split; [|split].
  - unfold FONT_THRESHOLDS.
    repeat (constructor; [|repeat (constructor; [cbn; lra|]); constructor]).
    constructor.
  - intros s level. unfold get_heading_level. split.
    + destruct (List.find _ _) as [[l t]|] eqn:F; [|discriminate].
      cbn. intros [= <-]. apply find_first in F.
      destruct F as (pre & post & E & Ft & Hpre).
      exists pre, t, post. split; [assumption|]. split.
      * apply Qgeb_true in Ft. exact Ft.
      * eapply List.Forall_impl; [|exact Hpre].
        intros e He. apply Qgeb_false in He. exact He.
    + intros (pre & t & post & E & Hts & Hpre).
      assert (F : List.find (fun entry => Qgeb s (snd entry)) FONT_THRESHOLDS
                  = Some (level, t)).
      { apply find_first. exists pre, post. split; [assumption|]. split.
        - apply Qgeb_true. exact Hts.
        - eapply List.Forall_impl; [|exact Hpre].
          intros e He. apply Qgeb_false. exact He. }
      rewrite F. reflexivity.
  - intros s1 s2 l1 l2 Hle H1 H2.
    destruct (get_heading_level_cases s1)
      as [[B1 E1]|[[B1 E1]|[[B1 E1]|[[B1 E1]|[B1 E1]]]]];
      rewrite E1 in H1; try discriminate; injection H1 as <-;
      destruct (get_heading_level_cases s2)
        as [[B2 E2]|[[B2 E2]|[[B2 E2]|[[B2 E2]|[B2 E2]]]]];
      rewrite E2 in H2; try discriminate; injection H2 as <-;
      try (exfalso; lra);
      eexists _, _; (split; [reflexivity|split; [reflexivity|cbn; lia]]).
Qed.

(** C9.  A cluster that [is_heading] accepts has a size of at least 12, so
    [get_heading_level] finds one of H1, H2, H3 for it; the tag is a
    non-empty text, so the builder appends an item. *)
Theorem heading_level_resolves (U : UnicodeDB) (text_ : str) (avg_size : Q) :
  is_heading text_ avg_size = true ->
  exists level,
    get_heading_level avg_size = Some level
    /\ In level [u "H1"; u "H2"; u "H3"].
Proof.
  intros H. apply is_heading_size in H.
  destruct (get_heading_level_cases avg_size)
    as [[B E]|[[B E]|[[B E]|[[B E]|[B E]]]]];
    try (exfalso; lra); rewrite E; eexists; (split; [reflexivity|]);
    cbn; auto.
Qed.

Lemma heading_level_resolves_witness :
  @is_heading ascii_db (u "Introduction") 18%Q = true
  /\ exists level,
       get_heading_level 18%Q = Some level
       /\ In level [u "H1"; u "H2"; u "H3"].
Proof.
  split; [vm_compute; reflexivity|].
  apply (heading_level_resolves ascii_db (u "Introduction") 18%Q).
  vm_compute; reflexivity.
Defined.

(** ** Stable sorting *)

Section StableSortFacts.
Context {A : Type} (before : A -> A -> bool).

Lemma insert_sorted_perm (x : A) (l : list A) : insert_sorted before x l ≡ₚ x :: l.
Proof.
  induction l as [|y l IH]; cbn; [reflexivity|].
  destruct (before y x); [|reflexivity].
  rewrite IH. apply perm_swap.
Qed.

Lemma stable_sort_perm (l : list A) : stable_sort before l ≡ₚ l.
Proof.
  induction l as [|x l IH]; cbn; [reflexivity|].
  rewrite insert_sorted_perm, IH. reflexivity.
Qed.

Hypothesis before_asym : forall a b, before a b = true -> before b a = false.
Hypothesis before_chain :
  forall a b c, before b a = false -> before c b = false -> before c a = false.

Lemma insert_sorted_sorted (x : A) (l : list A) :
  StronglySorted (in_order before) l -> StronglySorted (in_order before) (insert_sorted before x l).
Proof.
  induction l as [|y l IH]; cbn; intros Hs.
  - repeat constructor.
  - apply StronglySorted_cons in Hs. destruct Hs as [Hy Hs].
    destruct (before y x) eqn:E.
    + apply StronglySorted_cons. split; [|auto].
      rewrite insert_sorted_perm. constructor; [|assumption].
      apply before_asym. assumption.
    + apply StronglySorted_cons. split.
      * constructor; [exact E|].
        eapply List.Forall_impl; [|exact Hy].
        intros z Hz. exact (before_chain _ _ _ E Hz).
      * apply StronglySorted_cons. split; assumption.
Qed.

Lemma stable_sort_sorted (l : list A) : StronglySorted (in_order before) (stable_sort before l).
Proof.
  induction l as [|x l IH]; cbn; [constructor|].
  apply insert_sorted_sorted. assumption.
Qed.

End StableSortFacts.

Lemma StronglySorted_weaken {A} (R R' : A -> A -> Prop) (l : list A) :
  (forall a b, R a b -> R' a b) -> StronglySorted R l -> StronglySorted R' l.
Proof.
  intros HR. induction 1 as [|a l Hs IH Ha]; constructor; [assumption|].
  eapply List.Forall_impl; [|exact Ha]. intros b. apply HR.
Qed.

(** ** The line grouper *)

Lemma sort_boxes_perm (boxes : list Box) : sort_boxes boxes ≡ₚ boxes.
Proof. apply stable_sort_perm. Qed.

Lemma sort_boxes_sorted (boxes : list Box) :
  StronglySorted not_below (sort_boxes boxes).
Proof.
  assert (H : StronglySorted (in_order higher) (sort_boxes boxes)).
  { apply stable_sort_sorted; unfold higher.
    - intros a b Hab. apply Qgtb_true in Hab. apply Qgtb_false. lra.
    - intros a b c Hba Hcb. apply Qgtb_false in Hba, Hcb. apply Qgtb_false. lra. }
  eapply StronglySorted_weaken; [|exact H].
  intros a b Hab. unfold in_order, higher in Hab. apply Qgtb_false in Hab.
  exact Hab.
Qed.

Lemma chained_groups_cons (T : Q) (x : Box) (l : list Box) :
  exists g gs, chained_groups T (x :: l) = (x :: g) :: gs.
Proof.
  cbn [chained_groups]. destruct l as [|y l']; [exists [], []; reflexivity|].
  destruct (chained_groups T (y :: l')) as [|g gs];
    [exists [], []; reflexivity|].
  destruct (near T (box_y0 x) y); eauto.
Qed.

Lemma chained_groups_step (T : Q) (x y : Box) (l : list Box) :
  exists g gs,
    chained_groups T (y :: l) = g :: gs
    /\ chained_groups T (x :: y :: l)
       = if near T (box_y0 x) y then (x :: g) :: gs else [x] :: g :: gs.
Proof.
  destruct (chained_groups_cons T y l) as (g & gs & E).
  exists (y :: g), gs. split; [exact E|].
  change (chained_groups T (x :: y :: l))
    with (match chained_groups T (y :: l) with
          | g :: gs =>
              if near T (box_y0 x) y then (x :: g) :: gs else [x] :: g :: gs
          | [] => [[x]]
          end).
  rewrite E. reflexivity.
Qed.

(** The loop invariant: the loop, entered with a current group that ends in
    the box whose [y0] is [last_y], finishes the groups of that box and of
    the boxes that remain. *)
Lemma walk_chained (T : Q) (rest : list Box) :
  forall (groups : list (list Box)) (current : list Box) (x : Box),
    close_groups (walk T rest groups (current ++ [x]) (box_y0 x))
    = groups ++ match chained_groups T (x :: rest) with
                | g :: gs => (current ++ g) :: gs
                | [] => []
                end.
Proof.
  induction rest as [|y rest IH]; intros groups current x.
  - cbn. unfold close_groups. cbn. destruct current; reflexivity.
  - cbn [walk].
    destruct (chained_groups_step T x y rest) as (g & gs & Ey & Ex).
    rewrite Ex. destruct (near T (box_y0 x) y).
    + rewrite IH, Ey. rewrite <- app_assoc. reflexivity.
    + pose proof (IH (groups ++ [current ++ [x]]) [] y) as W.
      cbn [app] in W. rewrite W, Ey.
      rewrite <- app_assoc. reflexivity.
Qed.

Lemma sort_boxes_nil_inv (boxes : list Box) : sort_boxes boxes = [] -> boxes = [].
Proof.
  intros E. pose proof (sort_boxes_perm boxes) as P. rewrite E in P.
  apply Permutation_nil_l in P. congruence.
Qed.

(** The loop of the source computes the groups of the specification. *)
Lemma group_boxes_by_y_with_chained (T : Q) (boxes : list Box) :
  group_boxes_by_y_with T boxes = chained_groups T (sort_boxes boxes).
Proof.
  unfold group_boxes_by_y_with. destruct boxes as [|b boxes]; [reflexivity|].
  destruct (sort_boxes (b :: boxes)) as [|first rest] eqn:E.
  - apply sort_boxes_nil_inv in E. discriminate.
  - pose proof (walk_chained T rest [] [] first) as W.
    cbn [app] in W. unfold close_groups in W.
    destruct (walk T rest [] [first] (box_y0 first)) as [groups current].
    cbn [fst snd] in W.
    destruct (chained_groups_cons T first rest) as (g & gs & Eg).
    rewrite Eg in *. exact W.
Qed.

Lemma chained_groups_concat (T : Q) (l : list Box) :
  List.concat (chained_groups T l) = l.
Proof.
  induction l as [|x l IH]; [reflexivity|].
  destruct l as [|y l']; [reflexivity|].
  destruct (chained_groups_step T x y l') as (g & gs & Ey & Ex).
  rewrite Ex. rewrite Ey in IH. cbn [List.concat] in IH.
  destruct (near T (box_y0 x) y); cbn [List.concat app]; rewrite IH; reflexivity.
Qed.

Lemma chained_groups_nonempty (T : Q) (l : list Box) :
  Forall (fun g => g <> []) (chained_groups T l).
Proof.
  induction l as [|x l IH]; [constructor|].
  destruct l as [|y l']; [repeat constructor; discriminate|].
  destruct (chained_groups_step T x y l') as (g & gs & Ey & Ex).
  rewrite Ex. rewrite Ey in IH.
  apply Forall_cons_1 in IH. destruct IH as [Hg Hgs].
  destruct (near T (box_y0 x) y); repeat (constructor; try discriminate);
    assumption.
Qed.

(** C10.  The groups partition the input: concatenated in order they are
    the input sorted by [y0] descending, which is a rearrangement of the
    input, and no group is empty. *)
Theorem groups_partition_input (boxes : list Box) :
  List.concat (group_boxes_by_y boxes) = sort_boxes boxes
  /\ List.concat (group_boxes_by_y boxes) ≡ₚ boxes
  /\ StronglySorted (fun a b => (box_y0 b <= box_y0 a)%Q)
       (List.concat (group_boxes_by_y boxes))
  /\ Forall (fun g => g <> []) (group_boxes_by_y boxes).
Proof.
  unfold group_boxes_by_y. rewrite group_boxes_by_y_with_chained.
  rewrite chained_groups_concat.
  split; [reflexivity|]. split; [apply sort_boxes_perm|].
  split; [apply sort_boxes_sorted|apply chained_groups_nonempty].
Qed.

(** *** Boxes of a band of the page land in one group *)

Lemma in_band_true (lo hi : Q) (b : Box) :
  in_band lo hi b = true <-> (lo <= box_y0 b <= hi)%Q.
Proof. unfold in_band. rewrite andb_true_iff, !Qle_bool_iff. reflexivity. Qed.

Lemma filter_none {A} (f : A -> bool) (l : list A) :
  Forall (fun z => f z = false) l -> List.filter f l = [].
Proof.
  induction 1 as [|z l Hz _ IH]; cbn; [reflexivity|]. rewrite Hz. exact IH.
Qed.

(** A sequence sorted from the top of the page is the boxes above a band,
    then those in it, then those below it. *)
Lemma sorted_band_split (lo hi : Q) (s : list Box) :
  (lo <= hi)%Q ->
  StronglySorted not_below s ->
  s = List.filter (above hi) s ++ List.filter (in_band lo hi) s
      ++ List.filter (below lo) s.
Proof.
  intros Hlh. induction 1 as [|x s Hs IH Hx]; [reflexivity|].
  cbn [List.filter].
  destruct (above hi x) eqn:Ea.
  - assert (Eb : in_band lo hi x = false).
    { apply not_true_iff_false. rewrite in_band_true.
      apply Qgtb_true in Ea. lra. }
    assert (El : below lo x = false).
    { apply Qgtb_false. apply Qgtb_true in Ea. lra. }
    rewrite Eb, El. cbn [app]. f_equal. exact IH.
  - apply Qgtb_false in Ea.
    assert (Na : List.filter (above hi) s = []).
    { apply filter_none. eapply List.Forall_impl; [|exact Hx].
      intros z Hz. apply Qgtb_false. unfold not_below in Hz. lra. }
    rewrite Na in *. cbn [app] in *.
    destruct (in_band lo hi x) eqn:Eb.
    + assert (El : below lo x = false).
      { apply Qgtb_false. apply in_band_true in Eb. lra. }
      rewrite El. cbn [app]. f_equal. exact IH.
    + assert (Hlow : (box_y0 x < lo)%Q).
      { apply not_true_iff_false in Eb. rewrite in_band_true in Eb.
        destruct (Qlt_le_dec (box_y0 x) lo) as [?|Hge]; [assumption|].
        exfalso. apply Eb. split; assumption. }
      assert (El : below lo x = true) by (apply Qgtb_true; exact Hlow).
      assert (Nb : List.filter (in_band lo hi) s = []).
      { apply filter_none. eapply List.Forall_impl; [|exact Hx].
        intros z Hz. apply not_true_iff_false. rewrite in_band_true.
        unfold not_below in Hz. lra. }
      rewrite El, Nb in *. cbn [app] in *. f_equal. exact IH.
Qed.

Lemma chained_groups_linked_prefix (T : Q) (mid lo : list Box) :
  linked T mid -> mid <> [] ->
  exists g2 gs, chained_groups T (mid ++ lo) = (mid ++ g2) :: gs.
Proof.
  induction mid as [|x mid IH]; [congruence|]. intros Hl _.
  destruct mid as [|y mid'].
  - cbn [app]. apply chained_groups_cons.
  - cbn [linked] in Hl. destruct Hl as [Hn Hl].
    destruct (IH Hl) as (g2 & gs & E); [discriminate|].
    cbn [app] in *.
    destruct (chained_groups_step T x y (mid' ++ lo)) as (g & gs' & Ey & Ex).
    rewrite Ex, Hn. rewrite E in Ey. injection Ey as <- <-.
    exists g2, gs. reflexivity.
Qed.

Lemma chained_groups_keeps_group (T : Q) (hi r g : list Box)
    (gs : list (list Box)) :
  chained_groups T r = g :: gs ->
  exists g1 front, chained_groups T (hi ++ r) = front ++ (g1 ++ g) :: gs.
Proof.
  intros Er. induction hi as [|h hi IH].
  - exists [], []. exact Er.
  - destruct IH as (g1 & front & E).
    destruct (hi ++ r) as [|y l] eqn:Ehr.
    { destruct front; discriminate. }
    cbn [app]. rewrite Ehr.
    destruct (chained_groups_step T h y l) as (g' & gs' & Ey & Ex).
    rewrite Ex. rewrite E in Ey.
    destruct front as [|f front]; cbn [app] in Ey; injection Ey as <- <-.
    + destruct (near T (box_y0 h) y).
      * exists (h :: g1), []. reflexivity.
      * exists g1, [[h]]. reflexivity.
    + destruct (near T (box_y0 h) y).
      * exists g1, ((h :: f) :: front). reflexivity.
      * exists g1, ([h] :: f :: front). reflexivity.
Qed.

(** In a sorted sequence, the boxes of a band whose members are linked in a
    chain all fall in one group. *)
Lemma band_in_one_group (T lo hi : Q) (s : list Box) :
  (lo <= hi)%Q ->
  StronglySorted not_below s ->
  linked T (List.filter (in_band lo hi) s) ->
  List.filter (in_band lo hi) s <> [] ->
  exists g, g ∈ chained_groups T s
            /\ forall b, b ∈ s -> in_band lo hi b = true -> b ∈ g.
Proof.
  intros Hlh Hs Hl Hne.
  destruct (chained_groups_linked_prefix T _ (List.filter (below lo) s) Hl Hne)
    as (g2 & gs & E).
  destruct (chained_groups_keeps_group T (List.filter (above hi) s) _ _ _ E)
    as (g1 & front & E').
  rewrite <- (sorted_band_split lo hi s Hlh Hs) in E'.
  exists (g1 ++ List.filter (in_band lo hi) s ++ g2). split.
  - rewrite E'. apply elem_of_app. right. apply elem_of_cons. left. reflexivity.
  - intros b Hb Hband. rewrite !elem_of_app. right; left.
    apply list_elem_of_In. apply filter_In. split; [|exact Hband].
    apply list_elem_of_In. exact Hb.
Qed.

Lemma linked_of_adjacent (T : Q) (l : list Box) :
  (forall p x y q, l = p ++ x :: y :: q -> near T (box_y0 x) y = true) ->
  linked T l.
Proof.
  induction l as [|x l IH]; intros H; [exact I|].
  destruct l as [|y l']; [exact I|].
  cbn [linked]. split.
  - apply (H [] x y l'). reflexivity.
  - apply IH. intros p a b q E. apply (H (x :: p) a b q). rewrite E. reflexivity.
Qed.

(** *** Rounding to binary64 *)

Lemma round_half_even_floor (n : Z) (d : positive) :
  n / Zpos d <= round_half_even n d <= n / Zpos d + 1.
Proof.
  unfold round_half_even.
  destruct (2 * (n mod Zpos d) ?= Zpos d); [destruct (Z.even _)| |]; lia.
Qed.

Lemma round_half_even_lower (N n : Z) (d : positive) :
  (inject_Z N <= n # d)%Q -> N <= round_half_even n d.
Proof.
  unfold Qle. cbn. intros H.
  pose proof (round_half_even_floor n d).
  assert (N <= n / Zpos d) by (apply Z.div_le_lower_bound; lia).
  lia.
Qed.

Lemma round_half_even_upper (N n : Z) (d : positive) :
  (n # d <= inject_Z N)%Q -> round_half_even n d <= N.
Proof.
  unfold Qle. cbn. intros H.
  pose proof (round_half_even_floor n d) as F.
  assert (U : n / Zpos d <= N) by (apply Z.div_le_upper_bound; lia).
  destruct (Z.eq_dec (n / Zpos d) N) as [E|E]; [|lia].
  unfold round_half_even.
  pose proof (Z.div_mod n (Zpos d) ltac:(lia)) as D.
  pose proof (Z.mod_pos_bound n (Zpos d) ltac:(lia)) as B.
  rewrite E in D.
  assert (R : n mod Zpos d = 0) by lia.
  destruct (Z.compare_spec (2 * (n mod Zpos d)) (Zpos d));
    try destruct (Z.even _); lia.
Qed.

Lemma round_half_even_mono (n1 n2 : Z) (d1 d2 : positive) :
  (n1 # d1 <= n2 # d2)%Q -> round_half_even n1 d1 <= round_half_even n2 d2.
Proof.
  unfold Qle. cbn. intros H.
  pose proof (round_half_even_floor n1 d1) as F1.
  pose proof (round_half_even_floor n2 d2) as F2.
  pose proof (Z.div_mod n1 (Zpos d1) ltac:(lia)) as D1.
  pose proof (Z.mod_pos_bound n1 (Zpos d1) ltac:(lia)) as B1.
  pose proof (Z.div_mod n2 (Zpos d2) ltac:(lia)) as D2.
  pose proof (Z.mod_pos_bound n2 (Zpos d2) ltac:(lia)) as B2.
  assert (L : n1 / Zpos d1 <= n2 / Zpos d2).
  { apply Z.div_le_lower_bound; [lia|]. nia. }
  destruct (Z.eq_dec (n1 / Zpos d1) (n2 / Zpos d2)) as [E|E]; [|lia].
  unfold round_half_even. rewrite <- E.
  set (f := n1 / Zpos d1) in *. set (r1 := n1 mod Zpos d1) in *.
  set (r2 := n2 mod Zpos d2) in *.
  assert (R : r1 * Zpos d2 <= r2 * Zpos d1) by nia.
  destruct (2 * r1 ?= Zpos d1) eqn:C1; destruct (2 * r2 ?= Zpos d2) eqn:C2;
    try destruct (Z.even f); try lia;
    rewrite ?Z.compare_eq_iff, ?Z.compare_lt_iff, ?Z.compare_gt_iff in *; nia.
Qed.

Lemma pow2_inject (e : Z) : 0 <= e -> (inject_Z (2 ^ e) == 2 ^ e)%Q.
Proof. intros H. apply (Zpower_Qpower 2 e H). Qed.

Lemma pow2_pos (e : Z) : (0 < 2 ^ e)%Q.
Proof. apply Qpower_0_lt. reflexivity. Qed.

Lemma pow2_plus (a b : Z) : (2 ^ (a + b) == 2 ^ a * 2 ^ b)%Q.
Proof. apply Qpower_plus. discriminate. Qed.

Lemma pow2_le (a b : Z) : a <= b -> (2 ^ a <= 2 ^ b)%Q.
Proof. intros H. apply Qpower_le_compat_l; [exact H|]. unfold Qle; cbn; lia. Qed.

Lemma pow2_lt_inv (a b : Z) : (2 ^ a < 2 ^ b)%Q -> a < b.
Proof.
  intros H. destruct (Z_lt_le_dec a b) as [L|L]; [exact L|].
  apply pow2_le in L. lra.
Qed.

Lemma Qscale_spec (q : Q) (e : Z) : (Qscale q e == q * 2 ^ e)%Q.
Proof.
  unfold Qscale. destruct (0 <=? e) eqn:E.
  - apply Z.leb_le in E. rewrite <- (pow2_inject e E).
    unfold Qeq, Qmult, inject_Z. cbn. lia.
  - apply Z.leb_gt in E.
    assert (P : 0 < 2 ^ (- e)) by (apply Z.pow_pos_nonneg; lia).
    assert (X : (2 ^ e == / inject_Z (2 ^ (- e)))%Q).
    { rewrite pow2_inject by lia. rewrite <- Qpower_opp.
      replace (- - e) with e by lia. reflexivity. }
    rewrite X.
    destruct (2 ^ (- e)) as [|p|p] eqn:Ep; try lia.
    unfold Qeq, Qmult, Qinv, inject_Z. cbn. lia.
Qed.

Lemma floor_log2_spec (n d : positive) :
  (2 ^ floor_log2 n d <= Zpos n # d < 2 ^ (floor_log2 n d + 1))%Q.
Proof.
  pose proof (Z.log2_spec (Zpos n) ltac:(lia)) as [A1 A2].
  pose proof (Z.log2_spec (Zpos d) ltac:(lia)) as [B1 B2].
  pose proof (Z.log2_nonneg (Zpos n)) as An.
  pose proof (Z.log2_nonneg (Zpos d)) as Bn.
  set (a := Z.log2 (Zpos n)) in *. set (b := Z.log2 (Zpos d)) in *.
  assert (X : (Zpos n # d == inject_Z (Zpos n) / inject_Z (Zpos d))%Q).
  { rewrite (Qmake_Qdiv (Zpos n) d). reflexivity. }
  assert (Dpos : (0 < inject_Z (Zpos d))%Q) by (unfold Qlt; cbn; lia).
  assert (QA1 : (2 ^ a <= inject_Z (Zpos n))%Q).
  { rewrite <- pow2_inject by lia. rewrite <- Zle_Qle. exact A1. }
  assert (QA2 : (inject_Z (Zpos n) < 2 ^ (a + 1))%Q).
  { rewrite <- pow2_inject by lia. rewrite <- Zlt_Qlt.
    replace (a + 1) with (Z.succ a) by lia. exact A2. }
  assert (QB1 : (2 ^ b <= inject_Z (Zpos d))%Q).
  { rewrite <- pow2_inject by lia. rewrite <- Zle_Qle. exact B1. }
  assert (QB2 : (inject_Z (Zpos d) < 2 ^ (b + 1))%Q).
  { rewrite <- pow2_inject by lia. rewrite <- Zlt_Qlt.
    replace (b + 1) with (Z.succ b) by lia. exact B2. }
  assert (Lo : forall e, (2 ^ e * inject_Z (Zpos d) <= inject_Z (Zpos n))%Q ->
                         (2 ^ e <= Zpos n # d)%Q).
  { intros e H. rewrite X. apply Qle_shift_div_l; assumption. }
  assert (Hi : forall e, (inject_Z (Zpos n) < 2 ^ e * inject_Z (Zpos d))%Q ->
                         (Zpos n # d < 2 ^ e)%Q).
  { intros e H. rewrite X. apply Qlt_shift_div_r; assumption. }
  unfold floor_log2. fold a b. set (k := a - b).
  assert (T : Zpos d * 2 ^ Z.max 0 k <= Zpos n * 2 ^ Z.max 0 (- k)
              <-> (2 ^ k * inject_Z (Zpos d) <= inject_Z (Zpos n))%Q).
  { rewrite Zle_Qle, !inject_Z_mult, !pow2_inject by lia.
    assert (S : (2 ^ Z.max 0 k == 2 ^ k * 2 ^ Z.max 0 (- k))%Q).
    { rewrite <- pow2_plus. replace (k + Z.max 0 (- k)) with (Z.max 0 k) by lia.
      reflexivity. }
    rewrite S. pose proof (pow2_pos (Z.max 0 (- k))) as P.
    set (u := (2 ^ Z.max 0 (- k))%Q) in *. set (v := (2 ^ k)%Q).
    split; intros H; nra. }
  destruct (Zpos d * 2 ^ Z.max 0 k <=? Zpos n * 2 ^ Z.max 0 (- k)) eqn:E.
  - apply Z.leb_le in E. apply T in E. split; [apply Lo; exact E|].
    apply Hi. replace (k + 1) with ((a + 1) + (- b)) by lia.
    rewrite pow2_plus.
    assert (S : (2 ^ (- b) * 2 ^ b == 1)%Q).
    { rewrite <- pow2_plus. replace (- b + b) with 0 by lia. reflexivity. }
    pose proof (pow2_pos (- b)). pose proof (pow2_pos (a + 1)).
    set (u := (2 ^ (- b))%Q) in *. set (v := (2 ^ b)%Q) in *.
    set (w := (2 ^ (a + 1))%Q) in *.
    assert (P : (0 < w * u)%Q) by nra.
    assert (Q1 : (w * u * v == w)%Q) by (rewrite <- Qmult_assoc, S; ring).
    set (p := (w * u)%Q) in *. nra.
  - apply Z.leb_gt in E. split.
    + apply Lo. replace (k - 1) with (a + (- (b + 1))) by lia.
      rewrite pow2_plus.
      assert (S : (2 ^ (- (b + 1)) * 2 ^ (b + 1) == 1)%Q).
      { rewrite <- pow2_plus. replace (- (b + 1) + (b + 1)) with 0 by lia.
        reflexivity. }
      pose proof (pow2_pos (- (b + 1))). pose proof (pow2_pos a).
      set (u := (2 ^ (- (b + 1)))%Q) in *. set (v := (2 ^ (b + 1))%Q) in *.
      set (w := (2 ^ a)%Q) in *.
      assert (P : (0 < w * u)%Q) by nra.
      assert (Q1 : (w * u * v == w)%Q) by (rewrite <- Qmult_assoc, S; ring).
      set (p := (w * u)%Q) in *. nra.
    + apply Hi. replace (k - 1 + 1) with k by lia.
      apply Qnot_le_lt. intros C. apply T in C. lia.
Qed.

Lemma nearest_mono (s t : Q) : (s <= t)%Q -> nearest s <= nearest t.
Proof. destruct s, t. apply round_half_even_mono. Qed.

Lemma nearest_lower (N : Z) (s : Q) : (inject_Z N <= s)%Q -> N <= nearest s.
Proof. destruct s. apply round_half_even_lower. Qed.

Lemma nearest_upper (N : Z) (s : Q) : (s <= inject_Z N)%Q -> nearest s <= N.
Proof. destruct s. apply round_half_even_upper. Qed.

Lemma round64_pos_spec (n d : positive) :
  (round64_pos n d
   == inject_Z (nearest (Qscale (Zpos n # d) (- ulp_exponent n d)))
      * 2 ^ ulp_exponent n d)%Q.
Proof. unfold round64_pos. apply Qscale_spec. Qed.

Lemma round64_pos_nonneg (n d : positive) : (0 <= round64_pos n d)%Q.
Proof.
  rewrite round64_pos_spec. apply Qmult_le_0_compat.
  - change 0%Q with (inject_Z 0). rewrite <- Zle_Qle. apply nearest_lower.
    rewrite Qscale_spec. apply Qmult_le_0_compat.
    + unfold Qle. cbn. lia.
    + apply Qlt_le_weak, pow2_pos.
  - apply Qlt_le_weak, pow2_pos.
Qed.

Lemma round64_pos_mono (n1 d1 n2 d2 : positive) :
  (Zpos n1 # d1 <= Zpos n2 # d2)%Q ->
  (round64_pos n1 d1 <= round64_pos n2 d2)%Q.
Proof.
  intros H. rewrite !round64_pos_spec.
  pose proof (floor_log2_spec n1 d1) as [L1 H1].
  pose proof (floor_log2_spec n2 d2) as [L2 H2].
  assert (E : floor_log2 n1 d1 < floor_log2 n2 d2 + 1).
  { apply pow2_lt_inv. lra. }
  unfold ulp_exponent.
  set (e1 := floor_log2 n1 d1) in *. set (e2 := floor_log2 n2 d2) in *.
  set (u1 := Z.max (e1 - 52) (-1074)). set (u2 := Z.max (e2 - 52) (-1074)).
  set (x1 := (Zpos n1 # d1)%Q) in *. set (x2 := (Zpos n2 # d2)%Q) in *.
  destruct (Z.eq_dec u1 u2) as [Eu|Eu].
  - rewrite <- Eu. apply Qmult_le_compat_r; [|apply Qlt_le_weak, pow2_pos].
    rewrite <- Zle_Qle. apply nearest_mono. rewrite !Qscale_spec.
    apply Qmult_le_compat_r; [exact H|apply Qlt_le_weak, pow2_pos].
  - assert (U2 : u2 = e2 - 52) by lia. assert (Lt : u1 < u2) by lia.
    pose proof (pow2_pos u1) as P1. pose proof (pow2_pos u2) as P2.
    pose proof (pow2_pos (- u1)) as N1. pose proof (pow2_pos (- u2)) as N2.
    apply Qle_trans with (2 ^ e2)%Q.
    + (* the rounded x1 stays below 2^e2 *)
      assert (Hm : 0 <= e2 - u1) by lia.
      assert (X : (2 ^ e2 == 2 ^ (e2 - u1) * 2 ^ u1)%Q).
      { rewrite <- pow2_plus. replace (e2 - u1 + u1) with e2 by lia.
        reflexivity. }
      assert (Y : (2 ^ (e2 - u1) == 2 ^ e2 * 2 ^ (- u1))%Q).
      { rewrite <- pow2_plus. replace (e2 + - u1) with (e2 - u1) by lia.
        reflexivity. }
      assert (B : nearest (Qscale x1 (- u1)) <= 2 ^ (e2 - u1)).
      { apply nearest_upper. rewrite Qscale_spec, pow2_inject by lia.
        rewrite Y. apply Qmult_le_compat_r; [|apply Qlt_le_weak; exact N1].
        apply Qle_trans with (2 ^ (e1 + 1))%Q; [lra|apply pow2_le; lia]. }
      rewrite Zle_Qle, pow2_inject in B by lia.
      rewrite X. apply Qmult_le_compat_r; [exact B|apply Qlt_le_weak; exact P1].
    + (* the rounded x2 stays above 2^e2 *)
      assert (X : (2 ^ e2 == 2 ^ 52 * 2 ^ u2)%Q).
      { rewrite <- pow2_plus. replace (52 + u2) with e2 by lia. reflexivity. }
      assert (Y : (2 ^ 52 == 2 ^ e2 * 2 ^ (- u2))%Q).
      { rewrite <- pow2_plus. replace (e2 + - u2) with 52 by lia.
        reflexivity. }
      assert (B : 2 ^ 52 <= nearest (Qscale x2 (- u2))).
      { apply nearest_lower. rewrite Qscale_spec, pow2_inject by lia.
        rewrite Y. apply Qmult_le_compat_r; [exact L2|apply Qlt_le_weak; exact N2]. }
      rewrite Zle_Qle, pow2_inject in B by lia.
      rewrite X. apply Qmult_le_compat_r; [exact B|apply Qlt_le_weak; exact P2].
Qed.

Lemma Qred_num_sign (q : Q) :
  match Qnum (Qred q) with
  | Z0 => (q == 0)%Q
  | Zpos n => (q == Zpos n # Qden (Qred q))%Q
  | Zneg n => (q == - (Zpos n # Qden (Qred q)))%Q
  end.
Proof.
  pose proof (Qred_correct q) as C. destruct (Qred q) as [n d]. cbn.
  destruct n; rewrite <- C; reflexivity.
Qed.

(** Rounding keeps a number within a bound that is a float. *)
Lemma round64_within (d T : Q) :
  (round64 T == T)%Q -> (Qabs d <= T)%Q -> (Qabs (round64 d) <= T)%Q.
Proof.
  intros HT Hd.
  assert (T0 : (0 <= T)%Q) by (pose proof (Qabs_nonneg d); lra).
  assert (P : forall n dn, (Zpos n # dn <= T)%Q -> (round64_pos n dn <= T)%Q).
  { intros n dn Hn. rewrite <- HT. unfold round64.
    pose proof (Qred_num_sign T) as ST.
    assert (Pn : (0 < Zpos n # dn)%Q) by (unfold Qlt; cbn; lia).
    destruct (Qnum (Qred T)) as [|t|t].
    - lra.
    - rewrite Qred_correct. apply round64_pos_mono. rewrite <- ST. exact Hn.
    - assert (0 < Zpos t # Qden (Qred T))%Q by (unfold Qlt; cbn; lia). lra. }
  unfold round64. pose proof (Qred_num_sign d) as Sd.
  destruct (Qnum (Qred d)) as [|n|n].
  - exact T0.
  - rewrite Qred_correct. rewrite Qabs_pos by apply round64_pos_nonneg.
    apply P. pose proof (Qle_Qabs d) as A.
    set (y := (Zpos n # Qden (Qred d))%Q) in *. lra.
  - rewrite Qred_correct, Qabs_opp. rewrite Qabs_pos by apply round64_pos_nonneg.
    apply P. pose proof (Qle_Qabs (- d)) as A. rewrite Qabs_opp in A.
    set (y := (Zpos n # Qden (Qred d))%Q) in *. lra.
Qed.

(** [round64] sees the value of a rational, not the fraction that writes
    it. *)
Lemma round64_value (a b : Q) : (a == b)%Q -> round64 a = round64 b.
Proof.
  intros E. unfold round64. rewrite (Qred_complete a b E). reflexivity.
Qed.

Lemma fsub_value (a a' b b' : Q) :
  (a == a')%Q -> (b == b')%Q -> fsub a b = fsub a' b'.
Proof.
  intros Ea Eb. unfold fsub. apply round64_value. rewrite Ea, Eb. reflexivity.
Qed.

(** On these pairs of floats, among them a pair of subnormal numbers and
    pairs whose difference is not a float, [fsub] is the subtraction of the
    machine. *)
Example fsub_is_machine_subtraction :
  forallb (fun ab : float * float =>
             Qeq_bool (Q_of_float (fst ab - snd ab))
                      (fsub (Q_of_float (fst ab)) (Q_of_float (snd ab))))
    [ (0x1.3333333333333p-2, 0x1.099999999999ap+3);
      (0x1.099999999999ap+3, 0x1.3333333333333p-2);
      (0x1.5e20000000000p+9, 0x1.7866666666666p+6);
      (0x1.999999999999ap-4, 0x1.999999999999ap-3);
      (0x1.2000000000000p+6, 0x1.3ffffffffffffp+6);
      (0x1.7e43c8800759cp+996, 0x1.56e1fc2f8f359p-997);
      (0x1.9000000000000p+6, 0x1.7800000000000p+6);
      (0x0.0000000000001p-1022, 0x0.0000000000003p-1022);
      (0x1.e240c9fbe76c9p+16, 0x1.01f31f46ed246p-13);
      (0x1.3200000000000p+9, 0x1.3333333333334p-2) ]%float = true
  /\ Q_of_float 0x1.099999999999ap+3 = float_8_3
  /\ Q_of_float 0x1.3333333333333p-2 = float_0_3.
Proof. vm_compute. repeat split. Qed.

Lemma near_true (T last_y : Q) (b : Box) :
  near T last_y b = true <-> (Qabs (fsub (box_y0 b) last_y) <= T)%Q.
Proof. unfold near. apply Qle_bool_iff. Qed.

Lemma near_false (T last_y : Q) (b : Box) :
  near T last_y b = false <-> (T < Qabs (fsub (box_y0 b) last_y))%Q.
Proof.
  unfold near. rewrite <- not_true_iff_false, Qle_bool_iff.
  split; [apply Qnot_le_lt|apply Qlt_not_le].
Qed.

(** Where the box [y] follows the box [x] in the sequence, the groups up to
    [x] and from [y] on are those of the two parts, and the test of [y]
    against [x] decides whether [x] and [y] share a group. *)
Lemma chained_groups_adjacent (T : Q) (p : list Box) (x y : Box)
    (q : list Box) :
  exists G1 g1 g2 G2,
    List.concat G1 ++ g1 = p /\ g2 ++ List.concat G2 = q
    /\ chained_groups T (p ++ x :: y :: q)
       = G1 ++ (if near T (box_y0 x) y
                then [g1 ++ x :: y :: g2]
                else [g1 ++ [x]; y :: g2]) ++ G2.
Proof.
  destruct (chained_groups_cons T y q) as (g0 & gs0 & Ey).
  pose proof (chained_groups_concat T (y :: q)) as Cy. rewrite Ey in Cy.
  cbn [List.concat app] in Cy. injection Cy as Cy.
  destruct (chained_groups_step T x y q) as (g & gs & Ey' & Ex).
  rewrite Ey in Ey'. injection Ey' as <- <-.
  pose proof (chained_groups_concat T (p ++ x :: y :: q)) as C.
  destruct (near T (box_y0 x) y).
  - destruct (chained_groups_keeps_group T p _ _ _ Ex) as (g1 & front & E).
    exists front, g1, g0, gs0. rewrite E in C |- *.
    split; [|split; [exact Cy|reflexivity]].
    rewrite concat_app in C. cbn [List.concat] in C.
    rewrite <- !app_assoc in C. cbn [app] in C. rewrite Cy in C.
    rewrite app_assoc in C. apply app_inv_tail in C. exact C.
  - destruct (chained_groups_keeps_group T p _ _ _ Ex) as (g1 & front & E).
    exists front, g1, g0, gs0. rewrite E in C |- *.
    split; [|split; [exact Cy|reflexivity]].
    rewrite concat_app in C. cbn [List.concat] in C.
    rewrite <- !app_assoc in C. cbn [app] in C. rewrite Cy in C.
    rewrite app_assoc in C. apply app_inv_tail in C. exact C.
Qed.

Lemma elem_of_band (lo hi : Q) (s : list Box) (b : Box) :
  b ∈ List.filter (in_band lo hi) s <-> b ∈ s /\ (lo <= box_y0 b <= hi)%Q.
Proof.
  rewrite !list_elem_of_In, filter_In, in_band_true. reflexivity.
Qed.

(** With boxes at 100, 94 and 88 and no other height between, the boxes of
    the band from 88 to 100 are linked under the threshold 8. *)
Lemma band_100_94_88_linked (s : list Box) (b2 : Box) :
  StronglySorted not_below s ->
  b2 ∈ s -> (box_y0 b2 == 94)%Q ->
  (forall b, b ∈ s -> (88 <= box_y0 b <= 100)%Q ->
             (box_y0 b == 100 \/ box_y0 b == 94 \/ box_y0 b == 88)%Q) ->
  linked Y_THRESHOLD (List.filter (in_band 88 100) s).
Proof.
  intros Hs Hb2 Hy2.
  assert (H88 : (88 <= 100)%Q) by lra.
  assert (Hmid : StronglySorted not_below (List.filter (in_band 88 100) s)).
  { pose proof Hs as Hs'. rewrite (sorted_band_split 88 100 s H88 Hs) in Hs'.
    apply StronglySorted_app_1_r, StronglySorted_app_1_l in Hs'. exact Hs'. }
  assert (Hb2m : b2 ∈ List.filter (in_band 88 100) s).
  { apply elem_of_band. split; [assumption|lra]. }
  intros Hvals.
  apply linked_of_adjacent. intros p x y q E. rewrite E in Hmid, Hb2m.
  assert (Hx : x ∈ List.filter (in_band 88 100) s).
  { rewrite E. apply elem_of_app. right. apply elem_of_cons. left. reflexivity. }
  assert (Hy : y ∈ List.filter (in_band 88 100) s).
  { rewrite E. apply elem_of_app. right. apply elem_of_cons. right.
    apply elem_of_cons. left. reflexivity. }
  apply elem_of_band in Hx, Hy.
  destruct Hx as [Hxs Hxb], Hy as [Hys Hyb].
  pose proof (Hvals x Hxs Hxb) as Vx. pose proof (Hvals y Hys Hyb) as Vy.
  clear Hvals.
  apply StronglySorted_app in Hmid. destruct Hmid as (Hpx & _ & Hxyq).
  apply StronglySorted_cons in Hxyq. destruct Hxyq as [Hxy Hyq].
  apply StronglySorted_cons in Hyq. destruct Hyq as [Hyq _].
  apply Forall_cons_1 in Hxy. destruct Hxy as [Hxy _].
  unfold not_below in Hxy.
  assert (Hgap : (box_y0 x == 100 -> box_y0 y == 88 -> False)%Q).
  { intros Ex Ey.
    apply elem_of_app in Hb2m. destruct Hb2m as [Hin|Hin].
    - assert (Hb : not_below b2 x).
      { apply Hpx; [exact Hin|]. apply elem_of_cons. left. reflexivity. }
      unfold not_below in Hb. lra.
    - apply elem_of_cons in Hin. destruct Hin as [->|Hin]; [lra|].
      apply elem_of_cons in Hin. destruct Hin as [->|Hin]; [lra|].
      rewrite List.Forall_forall in Hyq.
      apply list_elem_of_In in Hin. apply Hyq in Hin.
      unfold not_below in Hin. lra. }
  apply near_true. unfold Y_THRESHOLD.
  destruct Vx as [Vx|[Vx|Vx]], Vy as [Vy|[Vy|Vy]];
    try (exfalso; exact (Hgap Vx Vy)); try (exfalso; lra);
    rewrite (fsub_value _ _ _ _ Vy Vx); apply Qle_bool_iff; reflexivity.
Qed.

(** C3.  [group_boxes_by_y] sorts the boxes from the top of the page and
    chains proximity.  No box gives no group and one box gives one group of
    that box.  The boxes are taken in the order of their [y0], highest
    first.  Where the box [y] follows the box [x] in that order, [y] is
    appended to the group that [x] ends exactly when
    [abs(y.y0 - x.y0) <= y_thresh], the difference being the float
    difference: then one group holds both, and otherwise the group of [x]
    closes with [x] and the next group opens with [y].  The test is against
    the box just before, not against the first box of the group: boxes at
    100, 94 and 88, with no other height between, share a group, although
    100 and 88 are 12 apart.  The difference is the rounded one: two boxes
    whose heights are at most 8 apart pass the test, the threshold being a
    float, and so do boxes at the floats of [8.3] and [0.3], which are more
    than 8 apart and whose float difference is 8: they share a group.  The
    loop computes [chained_groups] of the sorted sequence. *)
Theorem grouping_chains_transitively :
  group_boxes_by_y [] = []
  /\ (forall b, group_boxes_by_y [b] = [[b]])
  /\ (forall T boxes,
        group_boxes_by_y_with T boxes = chained_groups T (sort_boxes boxes))
  /\ (forall boxes,
        StronglySorted (fun a b => (box_y0 b <= box_y0 a)%Q) (sort_boxes boxes)
        /\ sort_boxes boxes ≡ₚ boxes)
  /\ (forall T boxes p x y q,
        sort_boxes boxes = p ++ x :: y :: q ->
        ((Qabs (fsub (box_y0 y) (box_y0 x)) <= T)%Q ->
         exists G1 g1 g2 G2,
           List.concat G1 ++ g1 = p /\ g2 ++ List.concat G2 = q
           /\ group_boxes_by_y_with T boxes
              = G1 ++ (g1 ++ x :: y :: g2) :: G2)
        /\ ((T < Qabs (fsub (box_y0 y) (box_y0 x)))%Q ->
            exists G1 g1 g2 G2,
              List.concat G1 ++ g1 = p /\ g2 ++ List.concat G2 = q
              /\ group_boxes_by_y_with T boxes
                 = G1 ++ (g1 ++ [x]) :: (y :: g2) :: G2))
  /\ (forall boxes b1 b2 b3,
        b1 ∈ boxes -> b2 ∈ boxes -> b3 ∈ boxes ->
        (box_y0 b1 == 100)%Q -> (box_y0 b2 == 94)%Q -> (box_y0 b3 == 88)%Q ->
        (forall b, b ∈ boxes -> (88 <= box_y0 b <= 100)%Q ->
                   (box_y0 b == 100 \/ box_y0 b == 94 \/ box_y0 b == 88)%Q) ->
        exists g, g ∈ group_boxes_by_y boxes /\ b1 ∈ g /\ b2 ∈ g /\ b3 ∈ g)
  /\ (Y_THRESHOLD < Qabs (fsub 88 100))%Q
  /\ (forall x y : Box,
        (Qabs (box_y0 y - box_y0 x) <= Y_THRESHOLD)%Q ->
        (Qabs (fsub (box_y0 y) (box_y0 x)) <= Y_THRESHOLD)%Q)
  /\ ((Y_THRESHOLD < Qabs (float_0_3 - float_8_3))%Q
      /\ (Qabs (fsub float_0_3 float_8_3) == Y_THRESHOLD)%Q
      /\ forall t1 s1 t2 s2,
           group_boxes_by_y
             [ {| box_text := t1; box_size := s1; box_y0 := float_0_3 |};
               {| box_text := t2; box_size := s2; box_y0 := float_8_3 |} ]
           = [ [ {| box_text := t2; box_size := s2; box_y0 := float_8_3 |};
                 {| box_text := t1; box_size := s1; box_y0 := float_0_3 |} ] ]).
Proof.
  split; [reflexivity|]. split; [intros b; reflexivity|].
  split; [exact group_boxes_by_y_with_chained|].
  split; [intros boxes; split; [apply sort_boxes_sorted|apply sort_boxes_perm]|].
  split.
  { intros T boxes p x y q E. rewrite group_boxes_by_y_with_chained, E.
    destruct (chained_groups_adjacent T p x y q)
      as (G1 & g1 & g2 & G2 & Hp & Hq & Eg).
    split; intros Hd; exists G1, g1, g2, G2;
      (split; [exact Hp|]; split; [exact Hq|]); rewrite Eg.
    - apply near_true in Hd. rewrite Hd. reflexivity.
    - apply near_false in Hd. rewrite Hd. reflexivity. }
  split; [|split; [reflexivity|];
           split; [intros x y; apply round64_within; reflexivity|];
           split; [reflexivity|];
           split; [reflexivity|]; intros t1 s1 t2 s2; reflexivity].
  intros boxes b1 b2 b3 H1 H2 H3 E1 E2 E3 Hvals.
  unfold group_boxes_by_y. rewrite group_boxes_by_y_with_chained.
  pose proof (sort_boxes_sorted boxes) as Hs.
  pose proof (sort_boxes_perm boxes) as Hp.
  assert (Hin : forall b, b ∈ boxes <-> b ∈ sort_boxes boxes).
  { intros b. rewrite Hp. reflexivity. }
  apply Hin in H1, H2, H3.
  assert (Hl : linked Y_THRESHOLD
                 (List.filter (in_band 88 100) (sort_boxes boxes))).
  { apply (band_100_94_88_linked _ b2 Hs H2 E2).
    intros b Hb. apply Hvals, Hin, Hb. }
  clear Hvals Hin.
  destruct (band_in_one_group Y_THRESHOLD 88 100 (sort_boxes boxes))
    as (g & Hg & Hall).
  - lra.
  - exact Hs.
  - exact Hl.
  - intros En.
    assert (Hb : b2 ∈ List.filter (in_band 88 100) (sort_boxes boxes)).
    { apply elem_of_band. split; [assumption|lra]. }
    rewrite En in Hb. apply elem_of_nil in Hb. exact Hb.
  - exists g. split; [exact Hg|].
    assert (B1 : in_band 88 100 b1 = true) by (apply in_band_true; lra).
    assert (B2 : in_band 88 100 b2 = true) by (apply in_band_true; lra).
    assert (B3 : in_band 88 100 b3 = true) by (apply in_band_true; lra).
    auto.
Qed.

(** ** The outline builder *)

Lemma append_items_nil (st : State) : append_items st [] = st.
Proof. destruct st. unfold append_items. cbn. rewrite app_nil_r. reflexivity. Qed.

Lemma append_items_app (st : State) (a b : list (gmap string value)) :
  append_items (append_items st a) b = append_items st (a ++ b).
Proof. unfold append_items. cbn. rewrite app_assoc. reflexivity. Qed.

Section BuilderFacts.
Context {U : UnicodeDB}.

Lemma process_group_heading (page_num : Z) (st : State) (group : list Box) :
  (page_num =? 0) && is_first_text st && passes_title group = false ->
  process_group page_num st group = append_items st (heading_items page_num group).
Proof.
  destruct group as [|first others]; intros H.
  - cbn. symmetry. apply append_items_nil.
  - unfold process_group, heading_items. cbn [passes_title] in H. rewrite H.
    destruct (is_heading _ _); [|symmetry; apply append_items_nil].
    destruct (get_heading_level _) as [[|c level']|];
      try (symmetry; apply append_items_nil).
    reflexivity.
Qed.

Lemma process_group_title (st : State) (group : list Box) :
  is_first_text st = true -> passes_title group = true ->
  process_group 0 st group
  = if Qgtb (avg_size_of group) (largest_size st)
    then {| outline := outline st;
            title_candidate := Some (merged_text_of group);
            largest_size := avg_size_of group; is_first_text := false |}
    else {| outline := outline st; title_candidate := title_candidate st;
            largest_size := largest_size st; is_first_text := false |}.
Proof.
  destruct group as [|first others]; [discriminate|]. intros Hf Ht.
  unfold process_group. cbn [passes_title] in Ht. rewrite Hf, Ht. reflexivity.
Qed.

(** Away from the title search every group is heading-classified. *)
Lemma fold_heading_only (page_num : Z) (groups : list (list Box)) :
  forall st,
    (page_num =? 0) && is_first_text st = false ->
    fold_left (process_group page_num) groups st
    = append_items st (flat_map (heading_items page_num) groups).
Proof.
  induction groups as [|g groups IH]; intros st H; cbn [fold_left flat_map].
  - symmetry. apply append_items_nil.
  - rewrite process_group_heading by (rewrite H; reflexivity).
    rewrite IH by exact H. apply append_items_app.
Qed.

(** The first page, entered while the title is sought. *)
Lemma fold_first_page (groups : list (list Box)) :
  forall st,
    is_first_text st = true ->
    fold_left (process_group 0) groups st
    = match List.find passes_title groups with
      | Some c =>
          append_items
            (if Qgtb (avg_size_of c) (largest_size st)
             then {| outline := outline st;
                     title_candidate := Some (merged_text_of c);
                     largest_size := avg_size_of c; is_first_text := false |}
             else {| outline := outline st;
                     title_candidate := title_candidate st;
                     largest_size := largest_size st; is_first_text := false |})
            (first_page_items groups)
      | None => append_items st (first_page_items groups)
      end.
Proof.
  induction groups as [|g groups IH]; intros st Hf;
    cbn [fold_left List.find first_page_items].
  - symmetry. apply append_items_nil.
  - destruct (passes_title g) eqn:Ep.
    + rewrite (process_group_title st g Hf Ep).
      rewrite fold_heading_only; [reflexivity|].
      destruct (Qgtb _ _); reflexivity.
    + rewrite process_group_heading by (rewrite Ep; apply andb_false_r).
      rewrite IH by exact Hf.
      destruct (List.find passes_title groups) as [c|].
      * cbn [largest_size append_items outline title_candidate].
        destruct (Qgtb _ _); unfold append_items; cbn;
          rewrite <- app_assoc; reflexivity.
      * apply append_items_app.
Qed.

Lemma fold_later_pages (pages : list (list Element)) :
  forall (start : Z) (st : State),
    0 < start ->
    fold_left process_page (enumerate_from start pages) st
    = append_items st (heading_items_of_pages start pages).
Proof.
  induction pages as [|layout pages IH]; intros start st Hs;
    cbn [enumerate_from fold_left heading_items_of_pages].
  - symmetry. apply append_items_nil.
  - rewrite IH by lia. cbn [process_page].
    fold (clusters_of layout).
    rewrite fold_heading_only.
    + apply append_items_app.
    + destruct (Z.eqb_spec start 0); [lia|reflexivity].
Qed.

(** The page loop: the first page with the title search, the later pages
    with heading classification only. *)
Lemma process_pages_first_later (max_pages : Z) (pages : list (list Element))
    (first : list Element) (later : list (list Element)) :
  slice_to max_pages pages = first :: later ->
  process_pages max_pages pages
  = append_items
      (fold_left (process_group 0) (clusters_of first) initial_state)
      (heading_items_of_pages 1 later).
Proof.
  intros E. unfold process_pages. rewrite E.
  cbn [enumerate_from fold_left]. rewrite fold_later_pages by lia.
  reflexivity.
Qed.

End BuilderFacts.

(** *** The items of the outline *)

Lemma item_on_pages_weaken (lo hi lo' hi' : Z) (item : gmap string value) :
  lo' <= lo -> hi <= hi' -> item_on_pages lo hi item -> item_on_pages lo' hi' item.
Proof.
  intros Hl Hh (level & t & p & y & E & Hp).
  exists level, t, p, y. split; [exact E|lia].
Qed.

Lemma outline_item_lookups (level text_ : str) (page : Z) (y : Q) :
  outline_item level text_ page y !! "level" = Some (VStr level)
  /\ outline_item level text_ page y !! "text" = Some (VStr text_)
  /\ outline_item level text_ page y !! "page" = Some (VInt page)
  /\ outline_item level text_ page y !! "y0" = Some (VFloat y).
Proof. repeat split. Qed.

Lemma pop_y0_lookups (level text_ : str) (page : Z) (y : Q) :
  pop_y0 (outline_item level text_ page y) !! "level" = Some (VStr level)
  /\ pop_y0 (outline_item level text_ page y) !! "text" = Some (VStr text_)
  /\ pop_y0 (outline_item level text_ page y) !! "page" = Some (VInt page)
  /\ dom (pop_y0 (outline_item level text_ page y))
     = ({[ "level"; "text"; "page" ]} : gset string).
Proof.
  repeat split.
Qed.

Section ItemFacts.
Context {U : UnicodeDB}.

Lemma heading_items_on_page (page_num : Z) (group : list Box) :
  Forall (item_on_pages (page_num + 1) (page_num + 1)) (heading_items page_num group).
Proof.
  unfold heading_items. destruct group as [|first others]; [constructor|].
  destruct (is_heading _ _); [|constructor].
  destruct (get_heading_level _) as [[|c level']|];
    [apply Forall_nil_2| |apply Forall_nil_2].
  apply Forall_cons_2; [|apply Forall_nil_2].
  eexists _, _, _, _. split; [reflexivity|lia].
Qed.

Lemma flat_map_heading_items_on_page (page_num : Z) (groups : list (list Box)) :
  Forall (item_on_pages (page_num + 1) (page_num + 1))
    (flat_map (heading_items page_num) groups).
Proof.
  induction groups as [|g groups IH]; cbn [flat_map]; [constructor|].
  apply Forall_app. split; [apply heading_items_on_page|exact IH].
Qed.

Lemma first_page_items_on_page (groups : list (list Box)) :
  Forall (item_on_pages 1 1) (first_page_items groups).
Proof.
  induction groups as [|g groups IH]; cbn [first_page_items]; [constructor|].
  destruct (passes_title g).
  - apply (flat_map_heading_items_on_page 0).
  - apply Forall_app. split; [apply (heading_items_on_page 0)|exact IH].
Qed.

Lemma heading_items_of_pages_on_pages (pages : list (list Element)) :
  forall start,
    Forall (item_on_pages (start + 1) (start + Z.of_nat (List.length pages)))
      (heading_items_of_pages start pages).
Proof.
  induction pages as [|layout pages IH]; intros start;
    cbn [heading_items_of_pages]; [constructor|].
  apply Forall_app. split.
  - eapply List.Forall_impl; [|apply flat_map_heading_items_on_page].
    intros item. apply item_on_pages_weaken; cbn [List.length]; lia.
  - eapply List.Forall_impl; [|apply (IH (start + 1))].
    intros item. apply item_on_pages_weaken; cbn [List.length]; lia.
Qed.

(** The outline and the title candidate after the page loop. *)
Lemma process_pages_outline (max_pages : Z) (pages : list (list Element)) :
  outline (process_pages max_pages pages)
  = match slice_to max_pages pages with
    | [] => []
    | first :: later =>
        first_page_items (clusters_of first) ++ heading_items_of_pages 1 later
    end.
Proof.
  destruct (slice_to max_pages pages) as [|first later] eqn:E.
  - unfold process_pages. rewrite E. reflexivity.
  - rewrite (process_pages_first_later _ _ _ _ E).
    rewrite fold_first_page by reflexivity.
    destruct (List.find passes_title (clusters_of first)); [|reflexivity].
    cbn [initial_state largest_size outline title_candidate].
    destruct (Qgtb _ _); reflexivity.
Qed.

Lemma process_pages_title (max_pages : Z) (pages : list (list Element)) :
  title_candidate (process_pages max_pages pages)
  = match slice_to max_pages pages with
    | [] => None
    | first :: _ =>
        match List.find passes_title (clusters_of first) with
        | Some c => if Qgtb (avg_size_of c) 0 then Some (merged_text_of c) else None
        | None => None
        end
    end.
Proof.
  destruct (slice_to max_pages pages) as [|first later] eqn:E.
  - unfold process_pages. rewrite E. reflexivity.
  - rewrite (process_pages_first_later _ _ _ _ E).
    rewrite fold_first_page by reflexivity.
    destruct (List.find passes_title (clusters_of first)); [|reflexivity].
    cbn [initial_state largest_size outline title_candidate].
    destruct (Qgtb _ _); reflexivity.
Qed.

Lemma process_pages_items (max_pages : Z) (pages : list (list Element)) :
  Forall (item_on_pages 1 (Z.of_nat (List.length (slice_to max_pages pages))))
    (outline (process_pages max_pages pages)).
Proof.
  rewrite process_pages_outline.
  destruct (slice_to max_pages pages) as [|first later]; [constructor|].
  apply Forall_app. split.
  - eapply List.Forall_impl; [|apply first_page_items_on_page].
    intros item. apply item_on_pages_weaken; cbn [List.length]; lia.
  - eapply List.Forall_impl; [|apply (heading_items_of_pages_on_pages later 1)].
    intros item. apply item_on_pages_weaken; cbn [List.length]; lia.
Qed.

End ItemFacts.

(** *** Sorting the outline *)

Lemma sort_key_item (level text_ : str) (page : Z) (y : Q) :
  sort_key (outline_item level text_ page y) = inr (page, (- y)%Q).
Proof. reflexivity. Qed.

Lemma traverse_keys (lo hi : Z) (items : list (gmap string value)) :
  Forall (item_on_pages lo hi) items ->
  traverse (fun item => k ← sort_key item; mret (k, item)) items
  = inr (List.map keyed items).
Proof.
  induction 1 as [|item items (level & t & p & y & -> & _) _ IH];
    [reflexivity|].
  cbn [traverse List.map]. rewrite IH. reflexivity.
Qed.

Lemma key_lt_true (a b : Z * Q) :
  key_lt a b = true <-> fst a < fst b \/ (fst a = fst b /\ (snd a < snd b)%Q).
Proof.
  unfold key_lt.
  rewrite orb_true_iff, andb_true_iff, Z.ltb_lt, Z.eqb_eq, Qgtb_true.
  reflexivity.
Qed.

Lemma key_lt_false (a b : Z * Q) :
  key_lt b a = false <-> fst a <= fst b /\ (fst a = fst b -> (snd a <= snd b)%Q).
Proof.
  rewrite <- not_true_iff_false, key_lt_true. split.
  - intros H. split; [lia|]. intros E.
    destruct (Qlt_le_dec (snd b) (snd a)) as [Hlt|Hle]; [|exact Hle].
    exfalso. apply H. right. split; [congruence|exact Hlt].
  - intros [H1 H2] [Hlt|[E Hlt]]; [lia|].
    symmetry in E. specialize (H2 E). lra.
Qed.

Lemma before_key_asym a b : before_key a b = true -> before_key b a = false.
Proof.
  unfold before_key. rewrite key_lt_true, key_lt_false.
  intros [Hlt|[E Hlt]]; (split; [lia|]); intros E'; [lia|lra].
Qed.

Lemma before_key_chain a b c :
  before_key b a = false -> before_key c b = false -> before_key c a = false.
Proof.
  unfold before_key. rewrite !key_lt_false.
  intros [H1 H2] [H3 H4]. split; [lia|]. intros E.
  assert (E1 : fst (fst a) = fst (fst b)) by lia.
  assert (E2 : fst (fst b) = fst (fst c)) by lia.
  specialize (H2 E1). specialize (H4 E2). lra.
Qed.

Lemma StronglySorted_map_on {A B} (P : A -> Prop) (R : A -> A -> Prop)
    (R' : B -> B -> Prop) (f : A -> B) (l : list A) :
  (forall a b, P a -> P b -> R a b -> R' (f a) (f b)) ->
  Forall P l -> StronglySorted R l -> StronglySorted R' (List.map f l).
Proof.
  intros HR HP. induction 1 as [|a l Hs IH Ha]; cbn [List.map]; [constructor|].
  apply Forall_cons_1 in HP. destruct HP as [Pa Pl].
  constructor; [exact (IH Pl)|].
  rewrite List.Forall_forall in *. intros b' Hb'.
  apply in_map_iff in Hb'. destruct Hb' as (b & <- & Hb). auto.
Qed.

Lemma keyed_order (lo hi : Z) (a b : gmap string value) :
  item_on_pages lo hi a -> item_on_pages lo hi b ->
  in_order before_key (keyed a) (keyed b) -> entry_order a b.
Proof.
  intros (la & ta & pa & ya & -> & _) (lb & tb & pb & yb & -> & _).
  unfold in_order, before_key, keyed. rewrite !sort_key_item. cbn [fst].
  rewrite key_lt_false. cbn [fst snd]. intros [H1 H2].
  exists pa, ya, pb, yb. repeat split; [exact H1|].
  intros E. specialize (H2 E). lra.
Qed.

(** Sorting an outline of items of the builder raises nothing, rearranges
    the items and puts them in order. *)
Lemma sort_outline_ok (lo hi : Z) (items : list (gmap string value)) :
  Forall (item_on_pages lo hi) items ->
  exists sorted,
    sort_outline items = inr sorted
    /\ sorted ≡ₚ items
    /\ StronglySorted entry_order sorted.
Proof.
  intros Hitems.
  exists (List.map snd (stable_sort before_key (List.map keyed items))).
  assert (Hperm : stable_sort before_key (List.map keyed items)
                  ≡ₚ List.map keyed items) by apply stable_sort_perm.
  split; [|split].
  - unfold sort_outline. rewrite (traverse_keys lo hi) by exact Hitems.
    reflexivity.
  - rewrite Hperm, map_map. cbn [keyed snd]. rewrite map_id. reflexivity.
  - assert (Hk : Forall (fun k => exists item, k = keyed item
                                   /\ item_on_pages lo hi item)
                   (stable_sort before_key (List.map keyed items))).
    { rewrite Hperm. rewrite List.Forall_forall in *. intros k Hk.
      apply in_map_iff in Hk. destruct Hk as (item & <- & Hin). eauto. }
    eapply StronglySorted_map_on; [|exact Hk|].
    + intros a b (ia & -> & Ha) (ib & -> & Hb) Hab. cbn [keyed snd].
      exact (keyed_order lo hi ia ib Ha Hb Hab).
    + apply stable_sort_sorted; [exact before_key_asym|exact before_key_chain].
Qed.

Lemma StronglySorted_lookup {A} (R : A -> A -> Prop) (l : list A) :
  StronglySorted R l ->
  forall (i j : nat) (a b : A),
    (i < j)%nat -> l !! i = Some a -> l !! j = Some b -> R a b.
Proof.
  induction 1 as [|x l Hs IH Hx]; intros i j a b Hij Ha Hb.
  - rewrite lookup_nil in Ha. discriminate.
  - destruct j as [|j]; [lia|]. cbn in Hb. destruct i as [|i].
    + cbn in Ha. injection Ha as <-. rewrite List.Forall_forall in Hx.
      apply Hx. apply list_elem_of_In. eapply list_elem_of_lookup_2. exact Hb.
    + cbn in Ha. apply (IH i j); [lia|assumption|assumption].
Qed.

(** ** The extraction as a whole *)

Lemma list_of_generator_of {A} (l : list A) : list_of (generator_of l) = inr l.
Proof.
  induction l as [|a l IH]; [reflexivity|]. cbn [generator_of list_of].
  rewrite IH. reflexivity.
Qed.

Lemma slice_to_MAX_PAGES {A} (l : list A) : slice_to MAX_PAGES l = firstn 50 l.
Proof. reflexivity. Qed.

Section ExtractionFacts.
Context {U : UnicodeDB}.

(** Once the collaborator has generated its pages, the [try] block returns:
    the page loop and the sort raise nothing. *)
Lemma try_block_returns (pages : generator (list Element)) (file_name : str)
    (max_pages : Z) (all_pages : list (list Element)) :
  list_of pages = inr all_pages ->
  exists sorted,
    sort_outline (outline (process_pages max_pages all_pages)) = inr sorted
    /\ sorted ≡ₚ outline (process_pages max_pages all_pages)
    /\ StronglySorted entry_order sorted
    /\ try_block pages file_name max_pages
       = inr {| out_title :=
                  title_or (title_candidate (process_pages max_pages all_pages))
                    (default_title file_name);
                out_outline := List.map pop_y0 sorted |}.
Proof.
  intros Hl.
  destruct (sort_outline_ok _ _ _ (process_pages_items max_pages all_pages))
    as (sorted & Hs & Hp & Ho).
  exists sorted. repeat split; try assumption.
  unfold try_block. rewrite Hl. cbn. rewrite Hs. reflexivity.
Qed.

Lemma try_block_raises (pages : generator (list Element)) (file_name : str)
    (max_pages : Z) (e : exn) :
  try_block pages file_name max_pages = inl e <-> list_of pages = inl e.
Proof.
  split.
  - destruct (list_of pages) as [e'|all_pages] eqn:Hl.
    + unfold try_block. rewrite Hl. cbn. congruence.
    + destruct (try_block_returns pages file_name max_pages all_pages Hl)
        as (sorted & _ & _ & _ & E).
      rewrite E. discriminate.
  - intros Hl. unfold try_block. rewrite Hl. reflexivity.
Qed.

(** C7.  A failure of the collaborator is raised inside the [try] block;
    whatever is raised there, the function returns the record with the file
    name as title and an empty outline; and when the collaborator does not
    fail, nothing is raised. *)
Theorem extract_degrades (pages : generator (list Element)) (file_name : str)
    (max_pages : Z) :
  (forall e, list_of pages = inl e ->
             try_block pages file_name max_pages = inl e)
  /\ (forall e, try_block pages file_name max_pages = inl e ->
                extract_pdfminer_outline_with pages file_name max_pages
                = {| out_title := file_name; out_outline := [] |})
  /\ (forall all_pages, list_of pages = inr all_pages ->
                        exists result,
                          try_block pages file_name max_pages = inr result).
Proof.
  split; [|split].
  - intros e Hl. apply try_block_raises. exact Hl.
  - intros e He. unfold extract_pdfminer_outline_with. rewrite He. reflexivity.
  - intros all_pages Hl.
    destruct (try_block_returns pages file_name max_pages all_pages Hl)
      as (sorted & _ & _ & _ & E).
    eexists. exact E.
Qed.

Lemma extract_returns (pages : generator (list Element)) (file_name : str)
    (all_pages : list (list Element)) :
  list_of pages = inr all_pages ->
  exists sorted,
    sorted ≡ₚ outline (process_pages MAX_PAGES all_pages)
    /\ StronglySorted entry_order sorted
    /\ extract_pdfminer_outline pages file_name
       = {| out_title :=
              title_or (title_candidate (process_pages MAX_PAGES all_pages))
                (default_title file_name);
            out_outline := List.map pop_y0 sorted |}.
Proof.
  intros Hl.
  destruct (try_block_returns pages file_name MAX_PAGES all_pages Hl)
    as (sorted & _ & Hp & Ho & E).
  exists sorted. repeat split; try assumption.
  unfold extract_pdfminer_outline, extract_pdfminer_outline_with.
  rewrite E. reflexivity.
Qed.

(** C5.  The outline of the output is the items of the page loop, sorted
    and then stripped of [y0]: in the sorted items an earlier item has a
    page that is not later and, on the same page, a [y0] that is not
    lower; an item on an earlier page stands earlier; and every entry of
    the output has exactly the keys "level", "text" and "page". *)
Theorem outline_sorted_and_stripped (pages : generator (list Element))
    (file_name : str) (all_pages : list (list Element)) :
  list_of pages = inr all_pages ->
  exists sorted : list (gmap string value),
    sorted ≡ₚ outline (process_pages MAX_PAGES all_pages)
    /\ out_outline (extract_pdfminer_outline pages file_name)
       = List.map pop_y0 sorted
    /\ (forall (i j : nat) a b,
          (i < j)%nat -> sorted !! i = Some a -> sorted !! j = Some b ->
          exists pa ya pb yb,
            a !! "page" = Some (VInt pa) /\ a !! "y0" = Some (VFloat ya)
            /\ b !! "page" = Some (VInt pb) /\ b !! "y0" = Some (VFloat yb)
            /\ pa <= pb /\ (pa = pb -> (yb <= ya)%Q))
    /\ (forall (i j : nat) a b pa pb,
          sorted !! i = Some a -> sorted !! j = Some b ->
          a !! "page" = Some (VInt pa) -> b !! "page" = Some (VInt pb) ->
          pa < pb -> (i < j)%nat)
    /\ Forall (fun entry => dom entry = ({[ "level"; "text"; "page" ]} : gset string))
         (out_outline (extract_pdfminer_outline pages file_name)).
Proof.
  intros Hl.
  destruct (extract_returns pages file_name all_pages Hl)
    as (sorted & Hp & Ho & E).
  exists sorted. rewrite E. cbn [out_outline].
  split; [exact Hp|]. split; [reflexivity|]. split; [|split].
  - intros i j a b Hij Ha Hb.
    exact (StronglySorted_lookup _ _ Ho i j a b Hij Ha Hb).
  - intros i j a b pa pb Ha Hb Hpa Hpb Hlt.
    destruct (Nat.lt_trichotomy i j) as [?|[->|Hji]]; [assumption| |].
    + exfalso. rewrite Ha in Hb. injection Hb as <-.
      rewrite Hpa in Hpb. injection Hpb as <-. lia.
    + exfalso.
      destruct (StronglySorted_lookup _ _ Ho j i b a Hji Hb Ha)
        as (qb & yb & qa & ya & Eb & _ & Ea & _ & Hle & _).
      rewrite Hpa in Ea. rewrite Hpb in Eb.
      injection Ea as <-. injection Eb as <-. lia.
  - pose proof (process_pages_items MAX_PAGES all_pages) as Hitems.
    rewrite <- Hp in Hitems.
    rewrite List.Forall_forall in *. intros entry He.
    apply in_map_iff in He. destruct He as (item & <- & Hin).
    destruct (Hitems item Hin) as (level & t & p & y & -> & _).
    apply pop_y0_lookups.
Qed.

(** C6.  With the default cap, the page loop runs over the first 50 pages
    at most, every entry of the output has a page between 1 and the
    smaller of the number of pages and 50, and the output is that of the
    document cut after its 50th page. *)
Theorem pages_capped (pages : generator (list Element)) (file_name : str)
    (all_pages : list (list Element)) :
  list_of pages = inr all_pages ->
  (List.length (slice_to MAX_PAGES all_pages) <= 50)%nat
  /\ Forall (fun entry =>
               exists page,
                 entry !! "page" = Some (VInt page)
                 /\ 1 <= page
                    <= Z.min (Z.of_nat (List.length all_pages)) MAX_PAGES)
       (out_outline (extract_pdfminer_outline pages file_name))
  /\ extract_pdfminer_outline pages file_name
     = extract_pdfminer_outline (generator_of (firstn 50 all_pages)) file_name.
Proof.
  intros Hl. split; [|split].
  - rewrite slice_to_MAX_PAGES, length_firstn. lia.
  - destruct (extract_returns pages file_name all_pages Hl)
      as (sorted & Hp & _ & E).
    rewrite E. cbn [out_outline].
    pose proof (process_pages_items MAX_PAGES all_pages) as Hitems.
    rewrite <- Hp in Hitems.
    rewrite List.Forall_forall in *. intros entry He.
    apply in_map_iff in He. destruct He as (item & <- & Hin).
    destruct (Hitems item Hin) as (level & t & p & y & -> & Hrange).
    exists p. split; [apply pop_y0_lookups|].
    rewrite slice_to_MAX_PAGES, length_firstn in Hrange.
    unfold MAX_PAGES. lia.
  - unfold extract_pdfminer_outline, extract_pdfminer_outline_with, try_block.
    rewrite Hl, list_of_generator_of. cbn [mbind raising_bind].
    unfold process_pages. rewrite !slice_to_MAX_PAGES.
    rewrite firstn_firstn. reflexivity.
Qed.

End ExtractionFacts.

(** ** ASCII documents

    On ASCII text the laws of [UnicodeDB] fix the tables, so the model of
    an ASCII document does not depend on them: it can be evaluated with
    [ascii_db]. *)

Lemma ascii_text_app (s t : str) :
  ascii_text (s ++ t) <-> ascii_text s /\ ascii_text t.
Proof. unfold ascii_text. rewrite forallb_app, andb_true_iff. reflexivity. Qed.

Lemma ascii_text_rev (s : str) : ascii_text s -> ascii_text (rev s).
Proof.
  unfold ascii_text. rewrite !forallb_forall. intros H c Hc.
  apply H. apply in_rev. exact Hc.
Qed.

Lemma ascii_text_lstrip (s : str) : ascii_text s -> ascii_text (lstrip s).
Proof.
  induction s as [|c s IH]; [intros H; exact H|]. intros H. cbn [lstrip].
  destruct (isspace c); [|exact H].
  apply IH. unfold ascii_text in *. cbn [forallb] in H.
  apply andb_true_iff in H. tauto.
Qed.

Lemma ascii_text_strip (s : str) : ascii_text s -> ascii_text (strip s).
Proof.
  intros H. unfold strip, rstrip.
  apply ascii_text_rev, ascii_text_lstrip, ascii_text_rev, ascii_text_lstrip, H.
Qed.

Lemma ascii_text_lower (s : str) :
  ascii_text s -> ascii_text (List.map ascii_lower_char s).
Proof.
  unfold ascii_text. rewrite !forallb_forall. intros H c Hc.
  apply in_map_iff in Hc. destruct Hc as (d & <- & Hd). specialize (H d Hd).
  unfold ascii_lower_char, ascii_isupper, is_ascii in *.
  destruct ((65 <=? d)%N && (d <=? 90)%N) eqn:E; [|exact H].
  apply andb_true_iff in E. destruct E as [_ E].
  apply N.leb_le in E. apply N.ltb_lt. lia.
Qed.

Lemma ascii_text_join (parts : list str) :
  Forall ascii_text parts -> ascii_text (join [10%N] parts).
Proof.
  induction 1 as [|p parts Hp Hparts IH]; [reflexivity|].
  cbn [join]. destruct parts as [|q parts]; [exact Hp|].
  apply ascii_text_app. split; [exact Hp|].
  apply ascii_text_app. split; [reflexivity|exact IH].
Qed.

Lemma ascii_text_replace (old new : str) (s : str) :
  ascii_text new -> ascii_text s ->
  forall skip, ascii_text (replace_skipping old new skip s).
Proof.
  intros Hn. induction s as [|c s IH]; intros Hs skip; [reflexivity|].
  assert (Hc : is_ascii c = true /\ ascii_text s).
  { unfold ascii_text in Hs. cbn [forallb] in Hs.
    apply andb_true_iff in Hs. exact Hs. }
  destruct Hc as [Hc Hs']. cbn [replace_skipping].
  destruct skip as [|k]; [|apply IH; exact Hs'].
  destruct (startswith old (c :: s)).
  - apply ascii_text_app. split; [exact Hn|apply IH; exact Hs'].
  - unfold ascii_text. cbn [forallb]. rewrite Hc. apply IH. exact Hs'.
Qed.

Section AsciiTransfer.
Context {U : UnicodeDB}.

Lemma in_class_ascii (c : codepoint) :
  is_ascii c = true -> @in_class U c = @in_class ascii_db c.
Proof. intros H. unfold in_class. rewrite (isdecimal_ascii c H). reflexivity. Qed.

Lemma re_match_numeric_ascii (s : str) :
  ascii_text s -> @re_match_numeric U s = @re_match_numeric ascii_db s.
Proof.
  intros H.
  assert (M : forall t, ascii_text t -> @match_more U t = @match_more ascii_db t).
  { induction t as [|c t IH]; [reflexivity|]. intros Ht.
    unfold ascii_text in Ht. cbn [forallb] in Ht.
    apply andb_true_iff in Ht. destruct Ht as [Hc Ht].
    cbn [match_more]. rewrite (in_class_ascii c Hc), (IH Ht). reflexivity. }
  destruct s as [|c s]; [reflexivity|].
  unfold ascii_text in H. cbn [forallb] in H.
  apply andb_true_iff in H. destruct H as [Hc Hs].
  cbn [re_match_numeric]. rewrite (in_class_ascii c Hc), (M s Hs). reflexivity.
Qed.

Lemma is_potential_title_ascii (t : str) (avg_size : Q) :
  ascii_text t ->
  @is_potential_title U t avg_size = @is_potential_title ascii_db t avg_size.
Proof.
  intros H. unfold is_potential_title. cbv zeta.
  rewrite (re_match_numeric_ascii (strip t)) by (apply ascii_text_strip, H).
  reflexivity.
Qed.

Lemma is_heading_ascii (t : str) (avg_size : Q) :
  ascii_text t -> @is_heading U t avg_size = @is_heading ascii_db t avg_size.
Proof.
  intros H. unfold is_heading. cbv zeta.
  rewrite (@lower_ascii U (strip t)) by (apply ascii_text_strip, H).
  change (@lower ascii_db (strip t)) with (List.map ascii_lower_char (strip t)).
  rewrite (re_match_numeric_ascii (List.map ascii_lower_char (strip t)))
    by (apply ascii_text_lower, ascii_text_strip, H).
  reflexivity.
Qed.

Lemma default_title_ascii (file_name : str) :
  ascii_text file_name ->
  @default_title U file_name = @default_title ascii_db file_name.
Proof.
  intros H. unfold default_title. apply title_ascii.
  apply ascii_text_replace; [reflexivity|].
  apply ascii_text_replace; [reflexivity|exact H].
Qed.

End AsciiTransfer.

Lemma boxes_of_layout_ascii (layout : list Element) :
  forallb ascii_element layout = true -> ascii_boxes (boxes_of_layout layout).
Proof.
  induction layout as [|e layout IH]; intros H; [constructor|].
  cbn [forallb] in H. apply andb_true_iff in H. destruct H as [He Hl].
  destruct e as [t y ls|]; cbn [boxes_of_layout]; [|exact (IH Hl)].
  destruct (Qgtb _ _); [|exact (IH Hl)].
  constructor; [|exact (IH Hl)].
  cbn [box_text]. apply ascii_text_strip. exact He.
Qed.

(** The boxes of a group are boxes of the input. *)
Lemma group_boxes_subset (boxes g : list Box) (b : Box) :
  g ∈ group_boxes_by_y boxes -> b ∈ g -> b ∈ boxes.
Proof.
  intros Hg Hb. rewrite <- (sort_boxes_perm boxes).
  rewrite <- (chained_groups_concat Y_THRESHOLD (sort_boxes boxes)).
  rewrite <- group_boxes_by_y_with_chained. fold (group_boxes_by_y boxes).
  apply list_elem_of_In, in_concat. exists g.
  split; apply list_elem_of_In; assumption.
Qed.

Lemma group_boxes_Forall (P : Box -> Prop) (boxes : list Box) :
  Forall P boxes -> Forall (Forall P) (group_boxes_by_y boxes).
Proof.
  intros H. apply List.Forall_forall. intros g Hg.
  apply List.Forall_forall. intros b Hb.
  rewrite List.Forall_forall in H. apply H.
  apply list_elem_of_In. apply list_elem_of_In in Hg, Hb.
  exact (group_boxes_subset boxes g b Hg Hb).
Qed.

Lemma merged_text_ascii (g : list Box) :
  ascii_boxes g -> ascii_text (merged_text_of g).
Proof.
  intros H. unfold merged_text_of. apply ascii_text_join.
  induction H; cbn [List.map]; constructor; assumption.
Qed.

Section AsciiDocuments.
Context {U : UnicodeDB}.

Lemma process_group_ascii (page_num : Z) (st : State) (g : list Box) :
  ascii_boxes g ->
  @process_group U page_num st g = @process_group ascii_db page_num st g.
Proof.
  intros H. destruct g as [|first others]; [reflexivity|].
  unfold process_group.
  rewrite (is_potential_title_ascii _ _ (merged_text_ascii _ H)).
  rewrite (is_heading_ascii _ _ (merged_text_ascii _ H)).
  reflexivity.
Qed.

Lemma fold_groups_ascii (page_num : Z) (groups : list (list Box)) :
  Forall ascii_boxes groups ->
  forall st,
    fold_left (@process_group U page_num) groups st
    = fold_left (@process_group ascii_db page_num) groups st.
Proof.
  induction 1 as [|g groups Hg _ IH]; intros st; [reflexivity|].
  cbn [fold_left]. rewrite (process_group_ascii _ _ _ Hg). apply IH.
Qed.

Lemma fold_pages_ascii (pages : list (list Element)) :
  forallb (forallb ascii_element) pages = true ->
  forall start st,
    fold_left (@process_page U) (enumerate_from start pages) st
    = fold_left (@process_page ascii_db) (enumerate_from start pages) st.
Proof.
  induction pages as [|layout pages IH]; intros H start st; [reflexivity|].
  cbn [forallb] in H. apply andb_true_iff in H. destruct H as [Hl Hp].
  cbn [enumerate_from fold_left process_page].
  rewrite fold_groups_ascii
    by (apply group_boxes_Forall, boxes_of_layout_ascii, Hl).
  apply (IH Hp).
Qed.

Lemma forallb_firstn {A} (f : A -> bool) (n : nat) (l : list A) :
  forallb f l = true -> forallb f (firstn n l) = true.
Proof.
  intros H. rewrite <- (firstn_skipn n l), forallb_app in H.
  apply andb_true_iff in H. tauto.
Qed.

Lemma process_pages_ascii (max_pages : Z) (pages : list (list Element)) :
  ascii_pages pages = true ->
  @process_pages U max_pages pages = @process_pages ascii_db max_pages pages.
Proof.
  intros H. unfold process_pages. apply fold_pages_ascii.
  unfold slice_to. destruct (0 <=? max_pages); apply forallb_firstn; exact H.
Qed.

(** An ASCII document with an ASCII name is extracted alike under every
    lawful table. *)
Lemma extract_ascii (pages : generator (list Element)) (file_name : str)
    (max_pages : Z) (all_pages : list (list Element)) :
  list_of pages = inr all_pages ->
  ascii_pages all_pages = true -> ascii_text file_name ->
  @extract_pdfminer_outline_with U pages file_name max_pages
  = @extract_pdfminer_outline_with ascii_db pages file_name max_pages.
Proof.
  intros Hl Hp Hn. unfold extract_pdfminer_outline_with, try_block.
  rewrite Hl. cbn [mbind raising_bind].
  rewrite (process_pages_ascii max_pages all_pages Hp).
  rewrite (default_title_ascii file_name Hn). reflexivity.
Qed.

End AsciiDocuments.

(** ** The title candidate *)

Lemma boxes_of_layout_sizes (layout : list Element) :
  Forall (fun b => (9 < box_size b)%Q) (boxes_of_layout layout).
Proof.
  induction layout as [|e layout IH]; [constructor|].
  destruct e as [t y ls|]; cbn [boxes_of_layout]; [|exact IH].
  destruct (Qgtb _ _) eqn:E; [|exact IH].
  constructor; [|exact IH]. cbn [box_size]. apply Qgtb_true in E. exact E.
Qed.

Lemma Qsum_above_9 (xs : list Q) :
  Forall (fun x => (9 < x)%Q) xs ->
  (9 * inject_Z (Z.of_nat (List.length xs)) <= Qsum xs)%Q
  /\ (xs <> [] -> (9 * inject_Z (Z.of_nat (List.length xs)) < Qsum xs)%Q).
Proof.
  induction 1 as [|x xs Hx _ [IH _]].
  - split; [unfold Qle; cbn; lia|congruence].
  - cbn [List.length Qsum fold_right].
    rewrite Nat2Z.inj_succ. unfold Z.succ. rewrite inject_Z_plus.
    fold (Qsum xs). change (inject_Z 1) with 1%Q.
    split; [|intros _]; lra.
Qed.

Lemma avg_size_above_9 (g : list Box) :
  g <> [] -> Forall (fun b => (9 < box_size b)%Q) g -> (9 < avg_size_of g)%Q.
Proof.
  intros Hne Hg. unfold avg_size_of.
  assert (Hlen : (0 < inject_Z (Z.of_nat (List.length g)))%Q).
  { change 0%Q with (inject_Z 0). rewrite <- Zlt_Qlt.
    destruct g; [congruence|cbn [List.length]; lia]. }
  apply Qlt_shift_div_l; [exact Hlen|].
  rewrite <- (length_map box_size g).
  apply Qsum_above_9.
  - rewrite List.Forall_forall in *. intros x Hx.
    apply in_map_iff in Hx. destruct Hx as (b & <- & Hb). auto.
  - destruct g; [congruence|discriminate].
Qed.

Section TitleFacts.
Context {U : UnicodeDB}.

(** The mean size of a group of a page is above 9, hence above the initial
    [largest_size]. *)
Lemma clusters_of_sizes (layout : list Element) (g : list Box) :
  In g (clusters_of layout) -> g <> [] -> Qgtb (avg_size_of g) 0 = true.
Proof.
  intros Hg Hne. apply Qgtb_true.
  assert (H : (9 < avg_size_of g)%Q).
  { apply avg_size_above_9; [exact Hne|].
    pose proof (group_boxes_Forall _ _ (boxes_of_layout_sizes layout)) as HF.
    rewrite List.Forall_forall in HF. apply HF. exact Hg. }
  lra.
Qed.

Lemma passes_title_nonempty (g : list Box) : passes_title g = true -> g <> [].
Proof. destruct g; [discriminate|discriminate]. Qed.

(** The title candidate after the page loop is the text of the first group
    of the first page that passes the title test. *)
Lemma process_pages_title_found (max_pages : Z) (pages : list (list Element)) :
  title_candidate (process_pages max_pages pages)
  = match slice_to max_pages pages with
    | [] => None
    | first :: _ =>
        merged_text_of <$> List.find passes_title (clusters_of first)
    end.
Proof.
  rewrite process_pages_title.
  destruct (slice_to max_pages pages) as [|first later]; [reflexivity|].
  destruct (List.find passes_title (clusters_of first)) as [c|] eqn:F;
    [|reflexivity].
  apply find_some in F. destruct F as [Hin Hp].
  rewrite (clusters_of_sizes first c Hin (passes_title_nonempty c Hp)).
  reflexivity.
Qed.

Lemma first_page_items_split (pre post : list (list Box)) (c : list Box) :
  Forall (fun g => passes_title g = false) pre ->
  passes_title c = true ->
  first_page_items (pre ++ c :: post)
  = flat_map (heading_items 0) pre ++ flat_map (heading_items 0) post.
Proof.
  intros Hpre Hc. induction Hpre as [|g pre Hg _ IH].
  - cbn [app first_page_items flat_map]. rewrite Hc. reflexivity.
  - cbn [app first_page_items flat_map]. rewrite Hg, IH.
    apply app_assoc.
Qed.

Lemma first_page_items_none (groups : list (list Box)) :
  Forall (fun g => passes_title g = false) groups ->
  first_page_items groups = flat_map (heading_items 0) groups.
Proof.
  induction 1 as [|g groups Hg _ IH]; [reflexivity|].
  cbn [first_page_items flat_map]. rewrite Hg, IH. reflexivity.
Qed.

Lemma find_none_Forall {A} (f : A -> bool) (l : list A) :
  Forall (fun a => f a = false) l -> List.find f l = None.
Proof.
  induction 1 as [|a l Ha _ IH]; [reflexivity|]. cbn. rewrite Ha. exact IH.
Qed.

Lemma passes_title_group (layout : list Element) (g : list Box) :
  In g (clusters_of layout) ->
  passes_title g = is_potential_title (merged_text_of g) (avg_size_of g).
Proof.
  intros Hg. destruct g as [|b g]; [|reflexivity].
  exfalso. unfold clusters_of, group_boxes_by_y in Hg.
  rewrite group_boxes_by_y_with_chained in Hg.
  pose proof (chained_groups_nonempty Y_THRESHOLD
                (sort_boxes (boxes_of_layout layout))) as H.
  rewrite List.Forall_forall in H. exact (H [] Hg eq_refl).
Qed.

End TitleFacts.

(** ** The title check *)

Section TitleCheck.
Context {U : UnicodeDB}.

Lemma passes_title_Forall (layout : list Element) (groups : list (list Box)) :
  (forall g, In g groups -> In g (clusters_of layout)) ->
  Forall (fun g => is_potential_title (merged_text_of g) (avg_size_of g) = false)
    groups ->
  Forall (fun g => passes_title g = false) groups.
Proof.
  intros Hsub H. rewrite List.Forall_forall in *. intros g Hg.
  rewrite (passes_title_group layout g (Hsub g Hg)). apply H. exact Hg.
Qed.

(** C1, as the code has it.  On the first page the groups are put to the
    title test in order until one passes.  That group becomes the title
    candidate and is not heading-classified; every group before it and
    after it on the page, and every group of a later page, goes through
    heading classification only.  When no group of the first page passes,
    no candidate is set and every group is heading-classified. *)
Theorem title_check_until_first_pass (max_pages : Z)
    (pages : list (list Element)) (first : list Element)
    (later : list (list Element)) :
  slice_to max_pages pages = first :: later ->
  (forall pre c post,
      clusters_of first = pre ++ c :: post ->
      Forall (fun g => is_potential_title (merged_text_of g) (avg_size_of g)
                       = false) pre ->
      is_potential_title (merged_text_of c) (avg_size_of c) = true ->
      title_candidate (process_pages max_pages pages) = Some (merged_text_of c)
      /\ outline (process_pages max_pages pages)
         = flat_map (heading_items 0) pre ++ flat_map (heading_items 0) post
           ++ heading_items_of_pages 1 later)
  /\ (Forall (fun g => is_potential_title (merged_text_of g) (avg_size_of g)
                       = false) (clusters_of first) ->
      title_candidate (process_pages max_pages pages) = None
      /\ outline (process_pages max_pages pages)
         = flat_map (heading_items 0) (clusters_of first)
           ++ heading_items_of_pages 1 later).
Proof.
  intros Hslice.
  rewrite process_pages_title_found, process_pages_outline, Hslice.
  split.
  - intros pre c post E Hpre Hc.
    assert (Hpre' : Forall (fun g => passes_title g = false) pre).
    { apply (passes_title_Forall first); [|exact Hpre].
      intros g Hg. rewrite E. apply in_or_app. left. exact Hg. }
    assert (Hc' : passes_title c = true).
    { rewrite (passes_title_group first c); [exact Hc|].
      rewrite E. apply in_or_app. right. left. reflexivity. }
    rewrite E.
    assert (F : List.find passes_title (pre ++ c :: post) = Some c).
    { apply find_first. exists pre, post. auto. }
    rewrite F, (first_page_items_split pre post c Hpre' Hc').
    split; [reflexivity|]. rewrite <- app_assoc. reflexivity.
  - intros Hall.
    assert (Hall' : Forall (fun g => passes_title g = false) (clusters_of first)).
    { apply (passes_title_Forall first); [auto|exact Hall]. }
    rewrite (find_none_Forall _ _ Hall'), (first_page_items_none _ Hall').
    split; reflexivity.
Qed.

End TitleCheck.

Lemma title_check_until_first_pass_witness :
  slice_to MAX_PAGES sample_pages = two_cluster_page :: [heading_page]
  /\ title_candidate (@process_pages ascii_db MAX_PAGES sample_pages)
     = Some (u "Real Title")
  /\ outline (@process_pages ascii_db MAX_PAGES sample_pages)
     = [outline_item (u "H2") (u "1.1 Background") 2 600%Q].
Proof.
  split; [reflexivity|].
  destruct (@title_check_until_first_pass ascii_db MAX_PAGES sample_pages
              two_cluster_page [heading_page] eq_refl) as [H _].
  destruct (H [[sample_box "ab" 20 700]] [sample_box "Real Title" 18 650] [])
    as [Ht Ho].
  - vm_compute. reflexivity.
  - repeat constructor.
  - vm_compute. reflexivity.
  - split; [rewrite Ht; vm_compute; reflexivity|].
    rewrite Ho. vm_compute. reflexivity.
Defined.

(** C1 as stated fails: the first group of the page fails the title test,
    and yet the second group is put to the test, becomes the title and is
    kept out of the outline, although heading classification accepts it. *)
Lemma later_cluster_becomes_title :
  clusters_of two_cluster_page
  = [[sample_box "ab" 20 700]; [sample_box "Real Title" 18 650]]
  /\ (forall U : UnicodeDB, @is_potential_title U (u "ab") 20%Q = false)
  /\ (forall U : UnicodeDB,
        title_candidate (@process_pages U MAX_PAGES [two_cluster_page])
        = Some (u "Real Title"))
  /\ (forall U : UnicodeDB, @is_heading U (u "Real Title") 18%Q = true)
  /\ (forall U : UnicodeDB,
        outline (@process_pages U MAX_PAGES [two_cluster_page]) = [])
  /\ (forall U : UnicodeDB,
        out_title (@extract_pdfminer_outline U
                     (generator_of [two_cluster_page]) (u "sample.pdf"))
        = u "Real Title").
Proof.
  split; [vm_compute; reflexivity|].
  split; [intros U; rewrite is_potential_title_ascii by reflexivity;
          vm_compute; reflexivity|].
  split; [intros U; rewrite process_pages_ascii by reflexivity;
          vm_compute; reflexivity|].
  split; [intros U; rewrite is_heading_ascii by reflexivity;
          vm_compute; reflexivity|].
  split; [intros U; rewrite process_pages_ascii by reflexivity;
          vm_compute; reflexivity|].
  intros U. unfold extract_pdfminer_outline.
  rewrite (extract_ascii _ _ _ [two_cluster_page]) by reflexivity.
  vm_compute. reflexivity.
Qed.

(** ** The default title *)

Lemma title_as_specified_ascii (U : UnicodeDB) (file_name : str) :
  ascii_text file_name ->
  @title_as_specified U file_name = @title_as_specified ascii_db file_name.
Proof.
  intros H. unfold title_as_specified. apply title_ascii.
  apply ascii_text_replace; [reflexivity|].
  unfold strip_extension. destruct (endswith _ _); [|exact H].
  apply forallb_firstn. exact H.
Qed.

Lemma Forall_firstn_keep {A} (P : A -> Prop) (n : nat) (l : list A) :
  Forall P l -> Forall P (firstn n l).
Proof.
  intros H. rewrite <- (firstn_skipn n l) in H.
  apply Forall_app in H. tauto.
Qed.

(** *** Where deleting ".pdf" is stripping the extension *)

(** The replacement of one character by one character. *)
Lemma replace_char (o n : codepoint) (s : str) :
  replace [o] [n] s = List.map (fun c => if (o =? c)%N then n else c) s.
Proof.
  unfold replace. induction s as [|c s IH]; [reflexivity|].
  cbn [replace_skipping startswith List.map List.length Nat.sub app].
  rewrite IH. destruct (o =? c)%N; reflexivity.
Qed.

Lemma startswith_pdf_underscores (s : str) :
  startswith (u ".pdf") (replace (u "_") (u " ") s) = startswith (u ".pdf") s.
Proof.
  change (u "_") with [95%N]. change (u " ") with [32%N].
  rewrite replace_char.
  assert (H : forall k c, k <> 95%N -> k <> 32%N ->
                (k =? (if (95 =? c)%N then 32%N else c))%N = (k =? c)%N).
  { intros k c H1 H2. destruct (N.eqb_spec 95 c) as [<-|_]; [|reflexivity].
    destruct (N.eqb_spec k 32), (N.eqb_spec k 95); congruence. }
  change (u ".pdf") with [46%N; 112%N; 100%N; 102%N].
  destruct s as [|a [|b [|c [|d s]]]]; cbn [List.map startswith];
    rewrite ?H by discriminate; reflexivity.
Qed.

Lemma occurs_pdf_underscores (s : str) :
  occurs (u ".pdf") (replace (u "_") (u " ") s) = occurs (u ".pdf") s.
Proof.
  induction s as [|c s IH]; [reflexivity|].
  cbn [occurs]. rewrite <- IH, <- (startswith_pdf_underscores (c :: s)).
  change (u "_") with [95%N]. change (u " ") with [32%N].
  rewrite !replace_char. reflexivity.
Qed.

(** An occurrence of ".pdf" that starts in [s] lies within [s]: the period
    is the first character of ".pdf" only. *)
Lemma startswith_pdf_app (s : str) :
  s <> [] ->
  startswith (u ".pdf") (s ++ u ".pdf") = startswith (u ".pdf") s.
Proof.
  intros Hne. change (u ".pdf") with [46%N; 112%N; 100%N; 102%N].
  destruct s as [|a [|b [|c [|d s]]]]; [congruence| | | |];
    cbn [app startswith]; rewrite ?andb_true_r;
    change (112 =? 46)%N with false; change (100 =? 46)%N with false;
    change (102 =? 46)%N with false;
    rewrite ?andb_false_r; reflexivity.
Qed.

Lemma replace_pdf_suffix (s : str) :
  occurs (u ".pdf") s = false ->
  replace (u ".pdf") (u "") (s ++ u ".pdf") = s.
Proof.
  unfold replace. induction s as [|c s IH]; intros H; [reflexivity|].
  cbn [occurs] in H. apply orb_false_iff in H. destruct H as [Hc Hs].
  change ((c :: s) ++ u ".pdf") with (c :: (s ++ u ".pdf")).
  cbn [replace_skipping].
  change (c :: (s ++ u ".pdf")) with ((c :: s) ++ u ".pdf").
  rewrite startswith_pdf_app by discriminate. rewrite Hc.
  rewrite (IH Hs). reflexivity.
Qed.

Lemma strip_extension_pdf (stem : str) :
  strip_extension (stem ++ u ".pdf") = stem.
Proof.
  unfold strip_extension, endswith. rewrite rev_app_distr.
  change (rev (u ".pdf") ++ rev stem)
    with (102%N :: 100%N :: 112%N :: 46%N :: rev stem).
  change (rev (u ".pdf")) with [102%N; 100%N; 112%N; 46%N].
  cbn [startswith N.eqb Pos.eqb andb].
  rewrite length_app. change (List.length (u ".pdf")) with 4%nat.
  replace (List.length stem + 4 - 4)%nat with (List.length stem + 0)%nat by lia.
  rewrite firstn_app_2. cbn [firstn]. apply app_nil_r.
Qed.

(** For a name [stem.pdf] whose stem does not contain ".pdf", the code's
    default title is the one the specification words. *)
Lemma default_title_strips_extension (U : UnicodeDB) (stem : str) :
  occurs (u ".pdf") stem = false ->
  default_title (stem ++ u ".pdf") = title_as_specified (stem ++ u ".pdf").
Proof.
  intros H. unfold default_title, title_as_specified.
  rewrite strip_extension_pdf. f_equal.
  change (u "_") with [95%N]. change (u " ") with [32%N].
  rewrite (replace_char 95 32 (stem ++ u ".pdf")), map_app.
  rewrite <- replace_char.
  change (List.map _ (u ".pdf")) with (u ".pdf").
  apply replace_pdf_suffix.
  change [95%N] with (u "_"). change [32%N] with (u " ").
  rewrite occurs_pdf_underscores. exact H.
Qed.

Section DefaultTitle.
Context {U : UnicodeDB}.

(** Pages without a box of size above 9 leave the state as it starts. *)
Lemma fold_pages_without_boxes (pages : list (list Element)) :
  Forall (fun layout => boxes_of_layout layout = []) pages ->
  forall start st,
    fold_left process_page (enumerate_from start pages) st = st.
Proof.
  induction 1 as [|layout pages Hl _ IH]; intros start st; [reflexivity|].
  cbn [enumerate_from fold_left process_page]. rewrite Hl. cbn [fold_left].
  apply IH.
Qed.

Lemma process_pages_without_boxes (max_pages : Z) (pages : list (list Element)) :
  Forall (fun layout => boxes_of_layout layout = []) pages ->
  process_pages max_pages pages = initial_state.
Proof.
  intros H. unfold process_pages. apply fold_pages_without_boxes.
  unfold slice_to. destruct (0 <=? max_pages); apply Forall_firstn_keep, H.
Qed.

(** C8, as the code has it.  When the page loop ends without a title
    candidate, the title is made from the file name by replacing
    underscores with spaces, deleting every occurrence of ".pdf" and
    title-casing, and the outline is the sorted, stripped items of the
    loop.  A document without pages, or whose pages have no text of size
    above 9, gets that title and an empty outline.  For a name [stem.pdf]
    whose stem does not contain ".pdf", that title is the one obtained by
    stripping the extension, replacing underscores and title-casing. *)
Theorem title_defaults_to_file_name (pages : generator (list Element))
    (file_name : str) (all_pages : list (list Element)) :
  list_of pages = inr all_pages ->
  (title_candidate (process_pages MAX_PAGES all_pages) = None ->
   out_title (extract_pdfminer_outline pages file_name)
   = title (replace (u ".pdf") (u "") (replace (u "_") (u " ") file_name))
   /\ exists sorted,
        sort_outline (outline (process_pages MAX_PAGES all_pages)) = inr sorted
        /\ out_outline (extract_pdfminer_outline pages file_name)
           = List.map pop_y0 sorted)
  /\ (Forall (fun layout => boxes_of_layout layout = []) all_pages ->
      extract_pdfminer_outline pages file_name
      = {| out_title :=
             title (replace (u ".pdf") (u "")
                      (replace (u "_") (u " ") file_name));
           out_outline := [] |})
  /\ (forall stem,
        file_name = stem ++ u ".pdf" -> occurs (u ".pdf") stem = false ->
        title (replace (u ".pdf") (u "") (replace (u "_") (u " ") file_name))
        = title_as_specified file_name).
Proof.
  intros Hl.
  destruct (try_block_returns pages file_name MAX_PAGES all_pages Hl)
    as (sorted & Hs & _ & _ & E).
  unfold extract_pdfminer_outline, extract_pdfminer_outline_with.
  rewrite E. cbn [out_title out_outline]. split; [|split].
  - intros Hnone. rewrite Hnone. split; [reflexivity|].
    exists sorted. split; [exact Hs|reflexivity].
  - intros Hempty.
    rewrite (process_pages_without_boxes MAX_PAGES all_pages Hempty) in *.
    cbn in Hs. injection Hs as <-. reflexivity.
  - intros stem -> Hstem. exact (default_title_strips_extension U stem Hstem).
Qed.

End DefaultTitle.

Lemma title_defaults_to_file_name_witness :
  list_of (generator_of untitled_pages) = inr untitled_pages
  /\ @extract_pdfminer_outline ascii_db (generator_of untitled_pages)
        (u "annual_report.pdf")
     = {| out_title := u "Annual Report";
          out_outline :=
            [pop_y0 (outline_item (u "H2") (u "1.1 Background") 2 600%Q)] |}.
Proof.
  split; [reflexivity|].
  destruct (@title_defaults_to_file_name ascii_db
              (generator_of untitled_pages) (u "annual_report.pdf")
              untitled_pages eq_refl) as [H _].
  destruct H as [Ht (sorted & Hs & Ho)]; [vm_compute; reflexivity|].
  vm_compute in Hs. injection Hs as <-.
  destruct (@extract_pdfminer_outline ascii_db (generator_of untitled_pages)
              (u "annual_report.pdf")) as [t o].
  cbn [out_title out_outline] in Ht, Ho. rewrite Ht, Ho.
  vm_compute. reflexivity.
Defined.

(** C8 as stated fails: a file name in which ".pdf" occurs before the
    extension loses that occurrence too.  For "notes.pdf_v2.pdf" the code
    gives "Notes V2", and stripping the extension gives "Notes.Pdf V2". *)
Lemma default_title_deletes_every_pdf :
  (forall U : UnicodeDB,
     title_candidate (@process_pages U MAX_PAGES []) = None)
  /\ (forall U : UnicodeDB,
        @extract_pdfminer_outline U Stop (u "notes.pdf_v2.pdf")
        = {| out_title := u "Notes V2"; out_outline := [] |})
  /\ (forall U : UnicodeDB,
        @title_as_specified U (u "notes.pdf_v2.pdf") = u "Notes.Pdf V2")
  /\ (forall U : UnicodeDB,
        out_title (@extract_pdfminer_outline U Stop (u "notes.pdf_v2.pdf"))
        <> @title_as_specified U (u "notes.pdf_v2.pdf")).
Proof.
  assert (E : forall U : UnicodeDB,
             @extract_pdfminer_outline U Stop (u "notes.pdf_v2.pdf")
             = {| out_title := u "Notes V2"; out_outline := [] |}).
  { intros U. unfold extract_pdfminer_outline.
    rewrite (extract_ascii _ _ _ []) by reflexivity.
    vm_compute. reflexivity. }
  assert (S : forall U : UnicodeDB,
             @title_as_specified U (u "notes.pdf_v2.pdf") = u "Notes.Pdf V2").
  { intros U. rewrite title_as_specified_ascii by reflexivity.
    vm_compute. reflexivity. }
  split; [intros U; reflexivity|]. split; [exact E|]. split; [exact S|].
  intros U. rewrite E, S. cbn [out_title]. vm_compute. discriminate.
Qed.

Lemma outline_sorted_and_stripped_witness :
  list_of (generator_of sample_pages) = inr sample_pages
  /\ Forall (fun entry => dom entry = ({[ "level"; "text"; "page" ]} : gset string))
       (out_outline (@extract_pdfminer_outline ascii_db
                       (generator_of sample_pages) (u "sample.pdf"))).
Proof.
  split; [reflexivity|].
  destruct (@outline_sorted_and_stripped ascii_db (generator_of sample_pages)
              (u "sample.pdf") sample_pages eq_refl)
    as (sorted & _ & _ & _ & _ & H).
  exact H.
Defined.

Lemma pages_capped_witness :
  list_of (generator_of sample_pages) = inr sample_pages
  /\ Forall (fun entry =>
               exists page,
                 entry !! "page" = Some (VInt page)
                 /\ 1 <= page
                    <= Z.min (Z.of_nat (List.length sample_pages)) MAX_PAGES)
       (out_outline (@extract_pdfminer_outline ascii_db
                       (generator_of sample_pages) (u "sample.pdf"))).
Proof.
  split; [reflexivity|].
  apply (@pages_capped ascii_db (generator_of sample_pages) (u "sample.pdf")
           sample_pages eq_refl).
Defined.

(** A heading on a 51st page leaves no entry. *)
Example page_51_is_dropped :
  out_outline (@extract_pdfminer_outline ascii_db
                 (generator_of (List.repeat [] 50 ++ [heading_page]))
                 (u "long.pdf")) = []
  /\ out_outline (@extract_pdfminer_outline ascii_db
                    (generator_of (List.repeat [] 49 ++ [heading_page]))
                    (u "long.pdf"))
     = [pop_y0 (outline_item (u "H2") (u "1.1 Background") 50 600%Q)].
Proof. split; vm_compute; reflexivity. Qed.

(** A collaborator that fails on a page beyond the cap still degrades the
    document: [list(pages)] runs the generator to its end. *)
Example failure_beyond_the_cap :
  @extract_pdfminer_outline ascii_db
    (Yield two_cluster_page (Raise (CollaboratorError "syntax")))
    (u "broken.pdf")
  = {| out_title := u "broken.pdf"; out_outline := [] |}.
Proof. reflexivity. Qed.

(** * Further properties of the code *)

(** ** The line grouper *)

Lemma stable_sort_sorted_id {A} (before : A -> A -> bool) (l : list A) :
  StronglySorted (in_order before) l -> stable_sort before l = l.
Proof.
  induction 1 as [|x l Hs IH Hx]; [reflexivity|].
  cbn [stable_sort fold_right]. fold (stable_sort before l). rewrite IH.
  destruct l as [|y l]; [reflexivity|]. cbn [insert_sorted].
  apply Forall_cons_1 in Hx. destruct Hx as [Hxy _].
  unfold in_order in Hxy. rewrite Hxy. reflexivity.
Qed.

Lemma sort_boxes_sorted_id (boxes : list Box) :
  StronglySorted not_below boxes -> sort_boxes boxes = boxes.
Proof.
  intros H. apply stable_sort_sorted_id.
  eapply StronglySorted_weaken; [|exact H].
  intros a b Hab. unfold in_order, higher. apply Qgtb_false. exact Hab.
Qed.

(** Boxes that come from the top of the page downwards are grouped in the
    order they come in, and grouping the boxes of the groups again gives
    the same groups. *)
Theorem grouping_keeps_sorted_input (T : Q) (boxes : list Box) :
  (StronglySorted (fun a b => (box_y0 b <= box_y0 a)%Q) boxes ->
   List.concat (group_boxes_by_y_with T boxes) = boxes)
  /\ group_boxes_by_y_with T (List.concat (group_boxes_by_y_with T boxes))
     = group_boxes_by_y_with T boxes.
Proof.
  rewrite !group_boxes_by_y_with_chained, chained_groups_concat. split.
  - intros H. apply sort_boxes_sorted_id. exact H.
  - rewrite (sort_boxes_sorted_id _ (sort_boxes_sorted boxes)). reflexivity.
Qed.

Lemma chained_groups_linked (T : Q) (l : list Box) :
  Forall (linked T) (chained_groups T l).
Proof.
  induction l as [|x l IH]; [constructor|].
  destruct l as [|y l']; [repeat constructor|].
  destruct (chained_groups_cons T y l') as (g0 & gs & Ey).
  destruct (chained_groups_step T x y l') as (g & gs' & Ey' & Ex).
  rewrite Ey in Ey'. injection Ey' as <- <-. rewrite Ex.
  rewrite Ey in IH. apply Forall_cons_1 in IH. destruct IH as [Hg Hgs].
  destruct (near T (box_y0 x) y) eqn:En.
  - constructor; [|exact Hgs]. cbn [linked]. split; assumption.
  - constructor; [exact I|]. constructor; assumption.
Qed.

Lemma chained_groups_separated (T : Q) (l : list Box) :
  separated T (chained_groups T l).
Proof.
  induction l as [|x l IH]; [exact I|].
  destruct l as [|y l']; [exact I|].
  destruct (chained_groups_cons T y l') as (g0 & gs & Ey).
  destruct (chained_groups_step T x y l') as (g & gs' & Ey' & Ex).
  rewrite Ey in Ey'. injection Ey' as <- <-. rewrite Ex.
  rewrite Ey in IH.
  destruct (near T (box_y0 x) y) eqn:En.
  - destruct gs as [|g2 gs]; [exact I|].
    cbn [separated] in *. destruct IH as [IH1 IH2]. split; [|exact IH2].
    intros a b Ha Hb. apply IH1; [|exact Hb].
    rewrite last_cons in Ha. destruct (last (y :: g0)) eqn:El; [exact Ha|].
    apply last_None in El. discriminate.
  - cbn [separated]. split; [|exact IH].
    intros a b Ha Hb. cbn in Ha, Hb. injection Ha as <-. injection Hb as <-.
    exact En.
Qed.

Lemma linked_tail (T : Q) (c : Box) (l : list Box) :
  linked T (c :: l) -> linked T l.
Proof. destruct l; cbn [linked]; [trivial|tauto]. Qed.

Lemma linked_adjacent (T : Q) (l p : list Box) (a b : Box) (q : list Box) :
  linked T l -> l = p ++ a :: b :: q -> near T (box_y0 a) b = true.
Proof.
  revert l. induction p as [|c p IH]; intros l Hl ->.
  - cbn [app linked] in Hl. tauto.
  - cbn [app] in Hl. apply linked_tail in Hl. exact (IH _ Hl eq_refl).
Qed.

Lemma separated_tail (T : Q) (g : list Box) (G : list (list Box)) :
  separated T (g :: G) -> separated T G.
Proof. destruct G; cbn [separated]; [trivial|tauto]. Qed.

Lemma separated_adjacent (T : Q) (G1 : list (list Box)) (g1 g2 : list Box)
    (G2 : list (list Box)) (a b : Box) :
  separated T (G1 ++ g1 :: g2 :: G2) ->
  last g1 = Some a -> head g2 = Some b -> near T (box_y0 a) b = false.
Proof.
  induction G1 as [|g G1 IH]; intros Hs Ha Hb.
  - cbn [app separated] in Hs. destruct Hs as [Hs _]. exact (Hs a b Ha Hb).
  - cbn [app] in Hs. apply separated_tail in Hs. exact (IH Hs Ha Hb).
Qed.

(** The groups are the maximal chains of the sorted boxes.  Laid end to end
    the groups are the boxes sorted from the top of the page, and no group
    is empty.  Two boxes that follow each other in a group pass the test of
    the loop, [abs(b.y0 - a.y0) <= y_thresh] on the float difference; the
    last box of a group and the first box of the next group fail it. *)
Theorem groups_are_maximal_chains (T : Q) (boxes : list Box) :
  List.concat (group_boxes_by_y_with T boxes) = sort_boxes boxes
  /\ Forall (fun g => g <> []) (group_boxes_by_y_with T boxes)
  /\ (forall g p a b q,
        g ∈ group_boxes_by_y_with T boxes -> g = p ++ a :: b :: q ->
        (Qabs (fsub (box_y0 b) (box_y0 a)) <= T)%Q)
  /\ (forall G1 g1 g2 G2 a b,
        group_boxes_by_y_with T boxes = G1 ++ g1 :: g2 :: G2 ->
        last g1 = Some a -> head g2 = Some b ->
        (T < Qabs (fsub (box_y0 b) (box_y0 a)))%Q).
Proof.
  rewrite group_boxes_by_y_with_chained.
  split; [apply chained_groups_concat|].
  split; [apply chained_groups_nonempty|]. split.
  - intros g p a b q Hg E. apply near_true.
    pose proof (chained_groups_linked T (sort_boxes boxes)) as L.
    rewrite Forall_forall in L. exact (linked_adjacent T g p a b q (L g Hg) E).
  - intros G1 g1 g2 G2 a b E Ha Hb. apply near_false.
    pose proof (chained_groups_separated T (sort_boxes boxes)) as S.
    rewrite E in S. exact (separated_adjacent T G1 g1 g2 G2 a b S Ha Hb).
Qed.

Lemma near_negative (T last_y : Q) (b : Box) :
  (T < 0)%Q -> near T last_y b = false.
Proof.
  intros HT. apply near_false.
  pose proof (Qabs_nonneg (fsub (box_y0 b) last_y)) as H. lra.
Qed.

Lemma chained_groups_all_linked (T : Q) (l : list Box) :
  linked T l -> l <> [] -> chained_groups T l = [l].
Proof.
  intros Hl Hne.
  destruct (chained_groups_linked_prefix T l [] Hl Hne) as (g2 & gs & E).
  rewrite app_nil_r in E.
  pose proof (chained_groups_concat T l) as C. rewrite E in C.
  cbn [List.concat] in C.
  assert (H0 : g2 ++ List.concat gs = []).
  { apply (app_inv_head l). rewrite app_nil_r, app_assoc. exact C. }
  apply app_eq_nil in H0. destruct H0 as [-> Hgs].
  pose proof (chained_groups_nonempty T l) as N. rewrite E in N.
  apply Forall_cons_1 in N. destruct N as [_ N].
  destruct gs as [|g gs]; [rewrite app_nil_r in E; exact E|].
  apply Forall_cons_1 in N. destruct N as [Ng _].
  cbn [List.concat] in Hgs. apply app_eq_nil in Hgs. tauto.
Qed.

(** The two ends of the threshold.  Under a negative threshold every box is
    a group of its own.  Boxes that are pairwise within the threshold, if
    there are any, form one group: the threshold is a float, so that the
    float difference of two heights that are within it is within it too.
    So do boxes that pairwise pass the test of the loop,
    [abs(b.y0 - a.y0) <= y_thresh] on the float difference. *)
Theorem grouping_threshold_extremes (T : Q) (boxes : list Box) :
  ((T < 0)%Q ->
   group_boxes_by_y_with T boxes = List.map (fun b => [b]) (sort_boxes boxes))
  /\ ((round64 T == T)%Q ->
      (forall a b, a ∈ boxes -> b ∈ boxes ->
                   (Qabs (box_y0 b - box_y0 a) <= T)%Q) ->
      boxes <> [] ->
      group_boxes_by_y_with T boxes = [sort_boxes boxes])
  /\ ((forall a b, a ∈ boxes -> b ∈ boxes ->
                   (Qabs (fsub (box_y0 b) (box_y0 a)) <= T)%Q) ->
      boxes <> [] ->
      group_boxes_by_y_with T boxes = [sort_boxes boxes]).
Proof.
  rewrite group_boxes_by_y_with_chained. split.
  - intros HT. induction (sort_boxes boxes) as [|x l IH]; [reflexivity|].
    destruct l as [|y l']; [reflexivity|].
    destruct (chained_groups_step T x y l') as (g & gs & Ey & Ex).
    rewrite Ex, (near_negative T _ _ HT). rewrite IH in Ey.
    rewrite <- Ey. reflexivity.
  - assert (W : (forall a b, a ∈ boxes -> b ∈ boxes ->
                   (Qabs (fsub (box_y0 b) (box_y0 a)) <= T)%Q) ->
                boxes <> [] ->
                chained_groups T (sort_boxes boxes) = [sort_boxes boxes]).
    { intros Hall Hne. apply chained_groups_all_linked.
      + apply linked_of_adjacent. intros p x y q E.
        apply near_true. apply Hall.
        * rewrite <- (sort_boxes_perm boxes), E. set_solver.
        * rewrite <- (sort_boxes_perm boxes), E. set_solver.
      + intros E. apply sort_boxes_nil_inv in E. contradiction. }
    split; [|exact W].
    intros HT Hall. apply W. intros a b Ha Hb.
    apply round64_within; [exact HT|]. apply Hall; assumption.
Qed.

(** ** Font sizes *)

Lemma Qsum_below (hi : Q) (xs : list Q) :
  Forall (fun x => (x < hi)%Q) xs -> xs <> [] ->
  (Qsum xs < hi * inject_Z (Z.of_nat (List.length xs)))%Q.
Proof.
  intros H Hne.
  assert (W : (Qsum xs <= hi * inject_Z (Z.of_nat (List.length xs)))%Q
              /\ (xs <> [] ->
                  (Qsum xs < hi * inject_Z (Z.of_nat (List.length xs)))%Q)).
  { clear Hne. induction H as [|x xs Hx _ [IH _]].
    - split; [unfold Qle; cbn; lia|congruence].
    - cbn [List.length Qsum fold_right]. fold (Qsum xs).
      rewrite Nat2Z.inj_succ. unfold Z.succ. rewrite inject_Z_plus.
      change (inject_Z 1) with 1%Q. rewrite !Qmult_plus_distr_r, !Qmult_1_r.
      split; [|intros _]; lra. }
  apply W. exact Hne.
Qed.

Lemma length_positive {A} (l : list A) :
  l <> [] -> (0 < inject_Z (Z.of_nat (List.length l)))%Q.
Proof.
  intros Hne. change 0%Q with (inject_Z 0). rewrite <- Zlt_Qlt.
  destruct l; [congruence|cbn [List.length]; lia].
Qed.

(** A text container without a sized character, be it empty or made of
    annotations only, has the average size [0.0], which is not above
    [TITLE_MIN_FONT_SIZE]: whatever its text and its place, the page loop
    makes no box of it. *)
Theorem container_without_characters_gives_no_box
    (lines : list (list LayoutItem)) :
  char_sizes lines = [] ->
  average_fontsize lines = 0%Q
  /\ forall t y rest,
       boxes_of_layout (LTTextContainer t y lines :: rest)
       = boxes_of_layout rest.
Proof.
  intros E. assert (A : average_fontsize lines = 0%Q).
  { unfold average_fontsize. rewrite E. reflexivity. }
  split; [exact A|]. intros t y rest. cbn [boxes_of_layout]. rewrite A.
  reflexivity.
Qed.

Lemma container_without_characters_gives_no_box_witness :
  char_sizes [[LTAnno]; []] = []
  /\ average_fontsize [[LTAnno]; []] = 0%Q
  /\ forall t y rest,
       boxes_of_layout (LTTextContainer t y [[LTAnno]; []] :: rest)
       = boxes_of_layout rest.
Proof.
  split; [reflexivity|].
  apply (container_without_characters_gives_no_box [[LTAnno]; []]).
  reflexivity.
Defined.

(** ** The classifier *)

Section ClassifierMore.
Context {U : UnicodeDB}.


End ClassifierMore.

Lemma in_class_not_upper (c : codepoint) :
  @in_class ascii_db c = true -> ascii_lower_char c = c.
Proof.
  unfold in_class, ascii_lower_char, ascii_isupper. cbn [isdecimal ascii_db].
  unfold ascii_isdigit, isspace. intros H.
  destruct ((65 <=? c)%N && (c <=? 90)%N) eqn:E; [|reflexivity].
  exfalso. apply andb_true_iff in E. destruct E as [E1 E2].
  apply N.leb_le in E1, E2.
  repeat (apply orb_true_iff in H; destruct H as [H|H]);
    repeat match goal with
           | H : (_ && _) = true |- _ => apply andb_true_iff in H; destruct H
           | H : (_ <=? _)%N = true |- _ => apply N.leb_le in H
           | H : (_ =? _)%N = true |- _ => apply N.eqb_eq in H
           end; lia.
Qed.

Lemma re_match_numeric_lower (s : str) :
  @re_match_numeric ascii_db s = true ->
  @re_match_numeric ascii_db (List.map ascii_lower_char s) = true.
Proof.
  rewrite !re_match_numeric_spec. intros [Hne Hall]. split.
  - destruct s; [congruence|discriminate].
  - rewrite List.Forall_forall in *. intros c Hc.
    apply in_map_iff in Hc. destruct Hc as (d & <- & Hd).
    rewrite (in_class_not_upper d (Hall d Hd)). exact (Hall d Hd).
Qed.

Lemma heading_passes_title_test_aux {U : UnicodeDB} (text_ : str)
    (avg_size : Q) :
  ascii_text text_ ->
  is_heading text_ avg_size = true ->
  is_potential_title text_ avg_size = true.
Proof.
  intros Ha. rewrite (is_heading_ascii text_ avg_size Ha).
  rewrite (is_potential_title_ascii text_ avg_size Ha).
  unfold is_heading, is_potential_title. cbv zeta.
  change (@lower ascii_db (strip text_))
    with (List.map ascii_lower_char (strip text_)).
  rewrite getitem_H3. unfold len. rewrite length_map.
  rewrite !andb_true_iff, !negb_true_iff.
  intros [[[Hlen Hsz] Hm] _]. repeat split.
  - exact Hlen.
  - apply Qgeb_true in Hsz. apply Qgeb_true. unfold TITLE_MIN_FONT_SIZE. lra.
  - apply not_true_iff_false. intros Hs.
    apply re_match_numeric_lower in Hs. congruence.
Qed.

(** On ASCII text the heading test is the stronger one: what [is_heading]
    accepts, [is_potential_title] accepts. *)
Theorem heading_passes_title_test (U : UnicodeDB) (text_ : str) (avg_size : Q) :
  ascii_text text_ ->
  is_heading text_ avg_size = true ->
  is_potential_title text_ avg_size = true.
Proof. apply heading_passes_title_test_aux. Qed.

Lemma In_firstn_keep {A} (n : nat) (l : list A) (x : A) :
  In x (firstn n l) -> In x l.
Proof.
  intros H. rewrite <- (firstn_skipn n l). apply in_or_app. left. exact H.
Qed.

Lemma heading_passes_title_test_witness :
  ascii_text (u "Chapter One")
  /\ @is_heading ascii_db (u "Chapter One") 16%Q = true
  /\ @is_potential_title ascii_db (u "Chapter One") 16%Q = true.
Proof.
  split; [reflexivity|]. split; [vm_compute; reflexivity|].
  apply (heading_passes_title_test ascii_db (u "Chapter One") 16%Q);
    [reflexivity|vm_compute; reflexivity].
Defined.

(** ** Where the entries of the outline come from *)

Section Origin.
Context {U : UnicodeDB}.

Lemma heading_items_inv (page_num : Z) (g : list Box) (item : gmap string value) :
  In item (heading_items page_num g) -> from_cluster page_num g item.
Proof.
  unfold heading_items. destruct g as [|first others]; [intros []|].
  destruct (is_heading _ _) eqn:Eh; [|intros []].
  destruct (get_heading_level _) as [[|c level']|] eqn:El;
    [intros []| |intros []].
  intros [<-|[]]. exists first, others, (c :: level'). auto.
Qed.

Lemma first_page_items_incl (groups : list (list Box)) (item : gmap string value) :
  In item (first_page_items groups) ->
  exists g, In g groups /\ In item (heading_items 0 g).
Proof.
  induction groups as [|g groups IH]; [intros []|].
  cbn [first_page_items]. destruct (passes_title g).
  - intros H. apply in_flat_map in H. destruct H as (g' & Hg' & Hi).
    exists g'. split; [right; exact Hg'|exact Hi].
  - intros H. apply in_app_or in H. destruct H as [H|H].
    + exists g. split; [left; reflexivity|exact H].
    + destruct (IH H) as (g' & Hg' & Hi). exists g'. split; [right|]; assumption.
Qed.

Lemma heading_items_of_pages_origin (pages : list (list Element)) :
  forall start item,
    In item (heading_items_of_pages start pages) ->
    exists (i : nat) layout g,
      pages !! i = Some layout /\ In g (clusters_of layout)
      /\ In item (heading_items (start + Z.of_nat i) g).
Proof.
  induction pages as [|layout pages IH]; intros start item; [intros []|].
  cbn [heading_items_of_pages]. intros H. apply in_app_or in H.
  destruct H as [H|H].
  - apply in_flat_map in H. destruct H as (g & Hg & Hi).
    exists 0%nat, layout, g. rewrite Z.add_0_r. auto.
  - destruct (IH _ _ H) as (i & layout' & g & Hl & Hg & Hi).
    exists (S i), layout', g. split; [exact Hl|]. split; [exact Hg|].
    replace (start + Z.of_nat (S i)) with (start + 1 + Z.of_nat i) by lia.
    exact Hi.
Qed.

(** Every item of the page loop is what heading classification makes of a
    group of one of the pages within the cap. *)
Lemma outline_origin (max_pages : Z) (pages : list (list Element))
    (item : gmap string value) :
  In item (outline (process_pages max_pages pages)) ->
  exists (i : nat) layout g,
    slice_to max_pages pages !! i = Some layout
    /\ In g (clusters_of layout)
    /\ from_cluster (Z.of_nat i) g item.
Proof.
  rewrite process_pages_outline.
  destruct (slice_to max_pages pages) as [|first later]; [intros []|].
  intros H. apply in_app_or in H. destruct H as [H|H].
  - destruct (first_page_items_incl _ _ H) as (g & Hg & Hi).
    exists 0%nat, first, g. split; [reflexivity|]. split; [exact Hg|].
    apply heading_items_inv. exact Hi.
  - destruct (heading_items_of_pages_origin _ _ _ H)
      as (i & layout & g & Hl & Hg & Hi).
    exists (S i), layout, g. split; [exact Hl|]. split; [exact Hg|].
    apply heading_items_inv.
    replace (Z.of_nat (S i)) with (1 + Z.of_nat i) by lia. exact Hi.
Qed.

Lemma out_outline_origin (pages : generator (list Element)) (file_name : str)
    (all_pages : list (list Element)) (entry : gmap string value) :
  list_of pages = inr all_pages ->
  In entry (out_outline (extract_pdfminer_outline pages file_name)) ->
  exists item,
    In item (outline (process_pages MAX_PAGES all_pages))
    /\ entry = pop_y0 item.
Proof.
  intros Hl He.
  destruct (extract_returns pages file_name all_pages Hl)
    as (sorted & Hp & _ & E).
  rewrite E in He. cbn [out_outline] in He.
  apply in_map_iff in He. destruct He as (item & <- & Hin).
  exists item. split; [|reflexivity].
  apply list_elem_of_In. rewrite <- Hp. apply list_elem_of_In. exact Hin.
Qed.

(** Every entry of the output comes from a group of a page within the cap
    that [is_heading] accepts: its text is the merged text of the group,
    its page is the place of that page in the document, and its level is
    what [get_heading_level] gives for the mean size, which is H1, H2 or
    H3, never H4. *)
Theorem entries_come_from_heading_clusters (pages : generator (list Element))
    (file_name : str) (all_pages : list (list Element)) :
  list_of pages = inr all_pages ->
  Forall (fun entry =>
            exists (i : nat) layout g level,
              all_pages !! i = Some layout /\ (i < 50)%nat
              /\ g ∈ clusters_of layout
              /\ is_heading (merged_text_of g) (avg_size_of g) = true
              /\ get_heading_level (avg_size_of g) = Some level
              /\ level ∈ [u "H1"; u "H2"; u "H3"]
              /\ entry !! "level" = Some (VStr level)
              /\ entry !! "text" = Some (VStr (merged_text_of g))
              /\ entry !! "page" = Some (VInt (Z.of_nat i + 1)))
    (out_outline (extract_pdfminer_outline pages file_name)).
Proof.
  intros Hl. apply List.Forall_forall. intros entry He.
  destruct (out_outline_origin _ _ _ _ Hl He) as (item & Hin & ->).
  destruct (outline_origin _ _ _ Hin)
    as (i & layout & g & Hi & Hg & first & others & level & -> & Eh & El & ->).
  rewrite slice_to_MAX_PAGES in Hi. apply lookup_take_Some in Hi.
  destruct Hi as [Hi Hlt].
  exists i, layout, (first :: others), level.
  split; [exact Hi|]. split; [exact Hlt|].
  split; [apply list_elem_of_In; exact Hg|].
  split; [exact Eh|]. split; [exact El|]. split.
  - pose proof (is_heading_size _ _ Eh) as Hsz.
    destruct (get_heading_level_cases (avg_size_of (first :: others)))
      as [[B E]|[[B E]|[[B E]|[[B E]|[B E]]]]];
      rewrite E in El; [| | |exfalso; lra|discriminate El];
      assert (Elevel : In level [u "H1"; u "H2"; u "H3"])
        by (injection El as El'; rewrite <- El'; cbn; auto);
      apply list_elem_of_In; exact Elevel.
  - destruct (pop_y0_lookups level (merged_text_of (first :: others))
                (Z.of_nat i + 1) (min_y0_of first others))
      as (H1 & H2 & H3 & _).
    auto.
Qed.

End Origin.

Lemma entries_come_from_heading_clusters_witness :
  list_of (generator_of sample_pages) = inr sample_pages
  /\ Forall (fun entry =>
               exists level,
                 level ∈ [u "H1"; u "H2"; u "H3"]
                 /\ entry !! "level" = Some (VStr level))
       (out_outline (@extract_pdfminer_outline ascii_db
                       (generator_of sample_pages) (u "sample.pdf"))).
Proof.
  split; [reflexivity|].
  eapply List.Forall_impl;
    [|apply (@entries_come_from_heading_clusters ascii_db
               (generator_of sample_pages) (u "sample.pdf") sample_pages
               eq_refl)].
  intros entry (i & layout & g & level & _ & _ & _ & _ & _ & Hl & He & _).
  exists level. split; assumption.
Defined.

(** ** The title *)

Lemma strip_nil : strip [] = [].
Proof. reflexivity. Qed.

Section TitleMore.
Context {U : UnicodeDB}.

Lemma passes_title_merged_nonempty (g : list Box) :
  passes_title g = true -> merged_text_of g <> [].
Proof.
  destruct g as [|b g]; [discriminate|]. cbn [passes_title].
  unfold is_potential_title. cbv zeta. rewrite !andb_true_iff, Z.leb_le.
  intros [[Hlen _] _] E. rewrite E, strip_nil in Hlen.
  unfold MIN_TEXT_LENGTH, len in Hlen. cbn in Hlen. lia.
Qed.

(** The title of the output is the merged text of the first group of the
    first page that passes the title test, as it stands (the text is never
    empty, so [or] keeps it); without such a group, and for a document
    without pages, it is the default made from the file name. *)
Theorem title_is_first_passing_cluster (pages : generator (list Element))
    (file_name : str) (all_pages : list (list Element)) :
  list_of pages = inr all_pages ->
  out_title (extract_pdfminer_outline pages file_name)
  = match all_pages with
    | [] => default_title file_name
    | first :: _ =>
        match List.find passes_title (clusters_of first) with
        | Some c => merged_text_of c
        | None => default_title file_name
        end
    end.
Proof.
  intros Hl.
  destruct (extract_returns pages file_name all_pages Hl)
    as (sorted & _ & _ & E).
  rewrite E. cbn [out_title]. rewrite process_pages_title_found.
  rewrite slice_to_MAX_PAGES.
  destruct all_pages as [|first later]; [reflexivity|]. cbn [firstn].
  destruct (List.find passes_title (clusters_of first)) as [c|] eqn:F;
    [|reflexivity].
  apply find_some in F. destruct F as [_ Hp].
  pose proof (passes_title_merged_nonempty c Hp) as Hne.
  cbn [fmap option_fmap option_map title_or].
  destruct (merged_text_of c); [congruence|reflexivity].
Qed.

End TitleMore.

Lemma title_is_first_passing_cluster_witness :
  list_of (generator_of sample_pages) = inr sample_pages
  /\ out_title (@extract_pdfminer_outline ascii_db (generator_of sample_pages)
                  (u "sample.pdf"))
     = u "Real Title".
Proof.
  split; [reflexivity|].
  rewrite (@title_is_first_passing_cluster ascii_db (generator_of sample_pages)
             (u "sample.pdf") sample_pages eq_refl).
  vm_compute. reflexivity.
Defined.

(** ** Sizes below the heading threshold *)

Lemma avg_size_below (hi : Q) (g : list Box) :
  g <> [] -> Forall (fun b => (box_size b < hi)%Q) g -> (avg_size_of g < hi)%Q.
Proof.
  intros Hne Hg. unfold avg_size_of.
  apply Qlt_shift_div_r; [apply length_positive; exact Hne|].
  rewrite <- (length_map box_size g). apply Qsum_below.
  - rewrite List.Forall_forall in *. intros x Hx.
    apply in_map_iff in Hx. destruct Hx as (b & <- & Hb). auto.
  - destruct g; [congruence|discriminate].
Qed.

Section SmallText.
Context {U : UnicodeDB}.

(** Every entry of the output stands on a page that has a text box of mean
    size 12 or more: a page whose boxes are all smaller gives no entry. *)
Theorem entry_pages_have_large_text (pages : generator (list Element))
    (file_name : str) (all_pages : list (list Element)) :
  list_of pages = inr all_pages ->
  Forall (fun entry =>
            exists (i : nat) layout b,
              entry !! "page" = Some (VInt (Z.of_nat i + 1))
              /\ all_pages !! i = Some layout
              /\ b ∈ boxes_of_layout layout
              /\ (12 <= box_size b)%Q)
    (out_outline (extract_pdfminer_outline pages file_name)).
Proof.
  intros Hl. apply List.Forall_forall. intros entry He.
  destruct (out_outline_origin _ _ _ _ Hl He) as (item & Hin & ->).
  destruct (outline_origin _ _ _ Hin)
    as (i & layout & g & Hi & Hg & first & others & level & -> & Eh & El & ->).
  rewrite slice_to_MAX_PAGES in Hi. apply lookup_take_Some in Hi.
  destruct Hi as [Hi _].
  apply is_heading_size in Eh.
  destruct (Forall_Exists_dec _ _ (fun b => Qlt_le_dec (box_size b) 12)
              (first :: others)) as [Hall|Hex].
  - exfalso. apply (avg_size_below 12) in Hall; [lra|discriminate].
  - apply List.Exists_exists in Hex. destruct Hex as (b & Hb & Hsz).
    exists i, layout, b. split; [apply pop_y0_lookups|].
    split; [exact Hi|]. split.
    + apply (group_boxes_subset _ (first :: others));
        apply list_elem_of_In; assumption.
    + exact Hsz.
Qed.

End SmallText.

Lemma entry_pages_have_large_text_witness :
  list_of (generator_of sample_pages) = inr sample_pages
  /\ Forall (fun entry =>
               exists (i : nat) layout b,
                 entry !! "page" = Some (VInt (Z.of_nat i + 1))
                 /\ sample_pages !! i = Some layout
                 /\ b ∈ boxes_of_layout layout
                 /\ (12 <= box_size b)%Q)
       (out_outline (@extract_pdfminer_outline ascii_db
                       (generator_of sample_pages) (u "sample.pdf"))).
Proof.
  split; [reflexivity|].
  apply (@entry_pages_have_large_text ascii_db (generator_of sample_pages)
           (u "sample.pdf") sample_pages eq_refl).
Defined.

(** ** The file-name title and the first page *)

Section FallbackTitle.
Context {U : UnicodeDB}.

Lemma ascii_page_groups (layout : list Element) (g : list Box) :
  forallb ascii_element layout = true ->
  In g (clusters_of layout) -> ascii_boxes g.
Proof.
  intros Ha Hg.
  pose proof (group_boxes_Forall _ _ (boxes_of_layout_ascii layout Ha)) as H.
  rewrite List.Forall_forall in H. exact (H g Hg).
Qed.

(** In an ASCII document that ends up without a title candidate, no entry
    of the output stands on page 1: a group of the first page that the
    heading test accepts would have passed the title test. *)
Theorem no_title_no_first_page_entry (pages : generator (list Element))
    (file_name : str) (all_pages : list (list Element)) :
  list_of pages = inr all_pages ->
  ascii_pages all_pages = true ->
  title_candidate (process_pages MAX_PAGES all_pages) = None ->
  Forall (fun entry =>
            exists page, entry !! "page" = Some (VInt page) /\ 2 <= page)
    (out_outline (extract_pdfminer_outline pages file_name)).
Proof.
  intros Hl Ha Hnone. apply List.Forall_forall. intros entry He.
  destruct (out_outline_origin _ _ _ _ Hl He) as (item & Hin & ->).
  destruct (outline_origin _ _ _ Hin)
    as (i & layout & g & Hi & Hg & first & others & level & -> & Eh & El & ->).
  exists (Z.of_nat i + 1). split; [apply pop_y0_lookups|].
  destruct i as [|i]; [exfalso|lia].
  rewrite process_pages_title_found in Hnone.
  destruct (slice_to MAX_PAGES all_pages) as [|first_page later] eqn:Es;
    [discriminate|].
  cbn in Hi. injection Hi as ->.
  destruct (List.find passes_title (clusters_of layout)) eqn:F;
    [discriminate|].
  pose proof (find_none _ _ F _ Hg) as Hp. cbn [passes_title] in Hp.
  assert (Hal : forallb ascii_element layout = true).
  { unfold ascii_pages in Ha. rewrite forallb_forall in Ha. apply Ha.
    rewrite slice_to_MAX_PAGES in Es.
    apply (In_firstn_keep 50). rewrite Es. left. reflexivity. }
  pose proof (merged_text_ascii _ (ascii_page_groups layout _ Hal Hg)) as Hm.
  rewrite (heading_passes_title_test_aux _ _ Hm Eh) in Hp. discriminate.
Qed.

End FallbackTitle.

Lemma no_title_no_first_page_entry_witness :
  list_of (generator_of untitled_pages) = inr untitled_pages
  /\ ascii_pages untitled_pages = true
  /\ title_candidate (@process_pages ascii_db MAX_PAGES untitled_pages) = None
  /\ Forall (fun entry =>
               exists page, entry !! "page" = Some (VInt page) /\ 2 <= page)
       (out_outline (@extract_pdfminer_outline ascii_db
                       (generator_of untitled_pages) (u "report.pdf"))).
Proof.
  split; [reflexivity|]. split; [reflexivity|].
  split; [vm_compute; reflexivity|].
  apply (@no_title_no_first_page_entry ascii_db (generator_of untitled_pages)
           (u "report.pdf") untitled_pages eq_refl eq_refl).
  vm_compute. reflexivity.
Defined.

(** ** What the page loop does not see *)

Lemma boxes_of_layout_qualifying (layout : list Element) :
  boxes_of_layout (List.filter qualifies layout) = boxes_of_layout layout.
Proof.
  induction layout as [|e layout IH]; [reflexivity|].
  destruct e as [t y ls|]; cbn [List.filter qualifies boxes_of_layout];
    [|exact IH].
  destruct (Qgtb (average_fontsize ls) TITLE_MIN_FONT_SIZE) eqn:E.
  - cbn [boxes_of_layout]. rewrite E, IH. reflexivity.
  - exact IH.
Qed.

Section Unseen.
Context {U : UnicodeDB}.

Lemma fold_pages_qualifying (pages : list (list Element)) :
  forall start st,
    fold_left process_page
      (enumerate_from start (List.map (List.filter qualifies) pages)) st
    = fold_left process_page (enumerate_from start pages) st.
Proof.
  induction pages as [|layout pages IH]; intros start st; [reflexivity|].
  cbn [List.map enumerate_from fold_left process_page].
  rewrite boxes_of_layout_qualifying. apply IH.
Qed.

Lemma slice_to_map {A B} (f : A -> B) (n : Z) (l : list A) :
  slice_to n (List.map f l) = List.map f (slice_to n l).
Proof.
  unfold slice_to. rewrite length_map.
  destruct (0 <=? n); apply firstn_map.
Qed.

(** Elements that are no text container, and text containers whose mean
    character size is 9 or less, have no effect on the output: the
    document without them is extracted alike, title, grouping and outline
    included. *)
Theorem unqualified_elements_are_ignored (pages : generator (list Element))
    (file_name : str) (max_pages : Z) (all_pages : list (list Element)) :
  list_of pages = inr all_pages ->
  extract_pdfminer_outline_with pages file_name max_pages
  = extract_pdfminer_outline_with
      (generator_of (List.map (List.filter qualifies) all_pages))
      file_name max_pages.
Proof.
  intros Hl. unfold extract_pdfminer_outline_with, try_block.
  rewrite Hl, list_of_generator_of. cbn [mbind raising_bind].
  unfold process_pages. rewrite slice_to_map, fold_pages_qualifying.
  reflexivity.
Qed.

Lemma process_pages_cap (all_pages : list (list Element)) :
  process_pages 0 all_pages = initial_state
  /\ (forall n, Z.of_nat (List.length all_pages) <= n ->
                process_pages n all_pages
                = process_pages (Z.of_nat (List.length all_pages)) all_pages)
  /\ (forall k : nat,
        (0 < k)%nat ->
        process_pages (- Z.of_nat k) all_pages
        = process_pages (Z.of_nat (List.length all_pages))
            (firstn (List.length all_pages - k) all_pages)).
Proof.
  split; [reflexivity|]. split.
  - intros n Hn. unfold process_pages, slice_to.
    destruct (Z.leb_spec 0 n) as [_|?]; [|lia].
    destruct (Z.leb_spec 0 (Z.of_nat (List.length all_pages))) as [_|?]; [|lia].
    rewrite Nat2Z.id, firstn_all.
    rewrite firstn_all2 by lia. reflexivity.
  - intros k Hk. unfold process_pages, slice_to.
    destruct (Z.leb_spec 0 (- Z.of_nat k)) as [?|_]; [lia|].
    destruct (Z.leb_spec 0 (Z.of_nat (List.length all_pages))) as [_|?]; [|lia].
    rewrite Nat2Z.id.
    replace (Z.to_nat (Z.of_nat (List.length all_pages) + - Z.of_nat k))
      with (List.length all_pages - k)%nat by lia.
    rewrite (firstn_all2 (n := List.length all_pages)); [reflexivity|].
    rewrite length_firstn. lia.
Qed.

Lemma extract_with_same_state (g1 g2 : generator (list Element))
    (p1 p2 : list (list Element)) (file_name : str) (m1 m2 : Z) :
  list_of g1 = inr p1 -> list_of g2 = inr p2 ->
  process_pages m1 p1 = process_pages m2 p2 ->
  extract_pdfminer_outline_with g1 file_name m1
  = extract_pdfminer_outline_with g2 file_name m2.
Proof.
  intros H1 H2 E. unfold extract_pdfminer_outline_with, try_block.
  rewrite H1, H2. cbn [mbind raising_bind]. rewrite E. reflexivity.
Qed.

(** The page cap at its edges.  With [max_pages] 0 no page is processed and
    the output has the default title and no entry; a cap of at least the
    number of pages changes nothing; and a negative cap, as slices have it,
    leaves out that many pages from the end. *)
Theorem max_pages_edges (pages : generator (list Element)) (file_name : str)
    (all_pages : list (list Element)) :
  list_of pages = inr all_pages ->
  extract_pdfminer_outline_with pages file_name 0
  = {| out_title := default_title file_name; out_outline := [] |}
  /\ (forall n, Z.of_nat (List.length all_pages) <= n ->
                extract_pdfminer_outline_with pages file_name n
                = extract_pdfminer_outline_with pages file_name
                    (Z.of_nat (List.length all_pages)))
  /\ (forall k : nat,
        (0 < k)%nat ->
        extract_pdfminer_outline_with pages file_name (- Z.of_nat k)
        = extract_pdfminer_outline_with
            (generator_of (firstn (List.length all_pages - k) all_pages))
            file_name (Z.of_nat (List.length all_pages))).
Proof.
  intros Hl. destruct (process_pages_cap all_pages) as (C0 & Cn & Ck).
  split; [|split].
  - unfold extract_pdfminer_outline_with, try_block.
    rewrite Hl. cbn [mbind raising_bind]. rewrite C0. reflexivity.
  - intros n Hn.
    apply (extract_with_same_state _ _ all_pages all_pages); auto.
  - intros k Hk.
    apply (extract_with_same_state _ _ all_pages
             (firstn (List.length all_pages - k) all_pages)); auto.
    apply list_of_generator_of.
Qed.

(** A collaborator that raises after any number of pages degrades the
    document, whatever the cap: [list(pages)] runs the generator to its end
    before the pages are cut. *)
Theorem failure_on_any_page_degrades (yielded : list (list Element)) (e : exn)
    (file_name : str) (max_pages : Z) :
  extract_pdfminer_outline_with (yield_all yielded (Raise e)) file_name
    max_pages
  = {| out_title := file_name; out_outline := [] |}.
Proof.
  assert (H : list_of (yield_all yielded (Raise e)) = inl e).
  { induction yielded as [|p yielded IH]; [reflexivity|].
    cbn [yield_all fold_right list_of]. fold (yield_all yielded (Raise e)).
    rewrite IH. reflexivity. }
  unfold extract_pdfminer_outline_with, try_block. rewrite H. reflexivity.
Qed.

End Unseen.

Lemma unqualified_elements_are_ignored_witness :
  list_of (generator_of [heading_page]) = inr [heading_page]
  /\ @extract_pdfminer_outline_with ascii_db (generator_of [heading_page])
       (u "sample.pdf") 50
     = @extract_pdfminer_outline_with ascii_db
         (generator_of [[text_element "1.1 Background" 14 600]])
         (u "sample.pdf") 50.
Proof.
  split; [reflexivity|].
  rewrite (@unqualified_elements_are_ignored ascii_db
             (generator_of [heading_page]) (u "sample.pdf") 50 [heading_page]
             eq_refl).
  reflexivity.
Defined.

Lemma max_pages_edges_witness :
  list_of (generator_of sample_pages) = inr sample_pages
  /\ @extract_pdfminer_outline_with ascii_db (generator_of sample_pages)
       (u "sample_file.pdf") 0
     = {| out_title := u "Sample File"; out_outline := [] |}
  /\ @extract_pdfminer_outline_with ascii_db (generator_of sample_pages)
       (u "sample_file.pdf") (-1)
     = {| out_title := u "Real Title"; out_outline := [] |}.
Proof.
  split; [reflexivity|].
  destruct (@max_pages_edges ascii_db (generator_of sample_pages)
              (u "sample_file.pdf") sample_pages eq_refl) as (H0 & _ & Hk).
  split.
  - rewrite H0. vm_compute. reflexivity.
  - change (-1) with (- Z.of_nat 1). rewrite (Hk 1%nat) by lia.
    vm_compute. reflexivity.
Defined.

(** ** The order of the outline *)

Lemma Qmin_list_le_start (x : Q) (xs : list Q) : (Qmin_list x xs <= x)%Q.
Proof.
  unfold Qmin_list. revert x. induction xs as [|y xs IH]; intros x; cbn.
  - lra.
  - destruct (Qgtb x y) eqn:E.
    + apply Qgtb_true in E. specialize (IH y). lra.
    + apply IH.
Qed.

Lemma Qmin_list_le (x : Q) (xs : list Q) (z : Q) :
  In z (x :: xs) -> (Qmin_list x xs <= z)%Q.
Proof.
  revert x. induction xs as [|y xs IH]; intros x [<-|Hz].
  - apply Qmin_list_le_start.
  - destruct Hz.
  - apply Qmin_list_le_start.
  - change (Qmin_list x (y :: xs))
      with (Qmin_list (if Qgtb x y then y else x) xs).
    destruct Hz as [<-|Hz].
    + pose proof (Qmin_list_le_start (if Qgtb x y then y else x) xs) as H.
      destruct (Qgtb x y) eqn:E; [exact H|].
      apply Qgtb_false in E. lra.
    + apply IH. right. exact Hz.
Qed.

Lemma Qmin_list_In (x : Q) (xs : list Q) : In (Qmin_list x xs) (x :: xs).
Proof.
  revert x. induction xs as [|y xs IH]; intros x; [left; reflexivity|].
  change (Qmin_list x (y :: xs))
    with (Qmin_list (if Qgtb x y then y else x) xs).
  destruct (IH (if Qgtb x y then y else x)) as [H|H].
  - rewrite <- H. destruct (Qgtb x y); [right; left|left]; reflexivity.
  - right. right. exact H.
Qed.

Lemma min_y0_of_groups (f1 f2 : Box) (o1 o2 : list Box) :
  group_above (f1 :: o1) (f2 :: o2) ->
  (min_y0_of f2 o2 <= min_y0_of f1 o1)%Q.
Proof.
  intros H. unfold min_y0_of.
  pose proof (Qmin_list_In (box_y0 f1) (List.map box_y0 o1)) as H1.
  change (box_y0 f1 :: List.map box_y0 o1)
    with (List.map box_y0 (f1 :: o1)) in H1.
  apply in_map_iff in H1. destruct H1 as (b1 & E1 & Hb1). rewrite <- E1.
  pose proof (Qmin_list_le (box_y0 f2) (List.map box_y0 o2) (box_y0 f2)
                (or_introl eq_refl)) as H2.
  specialize (H b1 f2 Hb1 (or_introl eq_refl)). unfold not_below in H. lra.
Qed.

Lemma sorted_concat_groups (groups : list (list Box)) :
  StronglySorted not_below (List.concat groups) ->
  StronglySorted group_above groups.
Proof.
  induction groups as [|g groups IH]; [constructor|].
  cbn [List.concat]. intros H. apply StronglySorted_app in H.
  destruct H as (Hcross & _ & Hrest). constructor; [exact (IH Hrest)|].
  apply List.Forall_forall. intros g' Hg' b1 b2 Hb1 Hb2.
  apply Hcross; apply list_elem_of_In; [exact Hb1|].
  apply in_concat. exists g'. split; assumption.
Qed.

Lemma clusters_of_descend (layout : list Element) :
  StronglySorted group_above (clusters_of layout).
Proof.
  apply sorted_concat_groups. unfold clusters_of, group_boxes_by_y.
  rewrite group_boxes_by_y_with_chained, chained_groups_concat.
  apply sort_boxes_sorted.
Qed.

Lemma items_in_order (l1 t1 l2 t2 : str) (p1 p2 : Z) (y1 y2 : Q) :
  p1 < p2 \/ (p1 = p2 /\ (y2 <= y1)%Q) ->
  item_in_order (outline_item l1 t1 p1 y1) (outline_item l2 t2 p2 y2).
Proof.
  intros H. unfold item_in_order, in_order, before_key, keyed.
  rewrite !sort_key_item. cbn [fst]. apply key_lt_false. cbn [fst snd].
  destruct H as [H|[-> H]]; (split; [lia|]); intros E; [lia|lra].
Qed.

Lemma items_on_pages_in_order (lo1 hi1 lo2 hi2 : Z) (a b : gmap string value) :
  hi1 < lo2 -> item_on_pages lo1 hi1 a -> item_on_pages lo2 hi2 b ->
  item_in_order a b.
Proof.
  intros H (la & ta & pa & ya & -> & Ha) (lb & tb & pb & yb & -> & Hb).
  apply items_in_order. left. lia.
Qed.

Section DiscoveryOrder.
Context {U : UnicodeDB}.

Lemma heading_items_in_order (page_num : Z) (g1 g2 : list Box)
    (a b : gmap string value) :
  group_above g1 g2 ->
  In a (heading_items page_num g1) -> In b (heading_items page_num g2) ->
  item_in_order a b.
Proof.
  intros Hg Ha Hb.
  apply heading_items_inv in Ha, Hb.
  destruct Ha as (f1 & o1 & l1 & -> & _ & _ & ->).
  destruct Hb as (f2 & o2 & l2 & -> & _ & _ & ->).
  apply items_in_order. right. split; [reflexivity|].
  apply min_y0_of_groups. exact Hg.
Qed.

Lemma heading_items_sorted (page_num : Z) (g : list Box) :
  StronglySorted item_in_order (heading_items page_num g).
Proof.
  unfold heading_items. destruct g as [|f o]; [constructor|].
  destruct (is_heading _ _); [|constructor].
  destruct (get_heading_level _) as [[|c l]|]; repeat constructor.
Qed.

Lemma flat_map_heading_items_sorted (page_num : Z) (groups : list (list Box)) :
  StronglySorted group_above groups ->
  StronglySorted item_in_order (flat_map (heading_items page_num) groups).
Proof.
  induction 1 as [|g groups Hs IH Hg]; cbn [flat_map]; [constructor|].
  apply StronglySorted_app. split; [|split; [apply heading_items_sorted|exact IH]].
  intros a b Ha Hb. apply list_elem_of_In in Ha, Hb.
  apply in_flat_map in Hb. destruct Hb as (g' & Hg' & Hb).
  rewrite List.Forall_forall in Hg.
  exact (heading_items_in_order page_num g g' a b (Hg g' Hg') Ha Hb).
Qed.

Lemma first_page_items_sorted (groups : list (list Box)) :
  StronglySorted group_above groups ->
  StronglySorted item_in_order (first_page_items groups).
Proof.
  induction 1 as [|g groups Hs IH Hg]; cbn [first_page_items]; [constructor|].
  destruct (passes_title g); [apply flat_map_heading_items_sorted; exact Hs|].
  apply StronglySorted_app. split; [|split; [apply heading_items_sorted|exact IH]].
  intros a b Ha Hb. apply list_elem_of_In in Ha, Hb.
  destruct (first_page_items_incl _ _ Hb) as (g' & Hg' & Hb').
  rewrite List.Forall_forall in Hg.
  exact (heading_items_in_order 0 g g' a b (Hg g' Hg') Ha Hb').
Qed.

Lemma heading_items_of_pages_sorted (pages : list (list Element)) :
  forall start,
    StronglySorted item_in_order (heading_items_of_pages start pages).
Proof.
  induction pages as [|layout pages IH]; intros start;
    cbn [heading_items_of_pages]; [constructor|].
  apply StronglySorted_app. split; [|split].
  - intros a b Ha Hb. apply list_elem_of_In in Ha, Hb.
    pose proof (flat_map_heading_items_on_page start (clusters_of layout)) as Fa.
    pose proof (heading_items_of_pages_on_pages pages (start + 1)) as Fb.
    rewrite List.Forall_forall in Fa, Fb.
    apply (items_on_pages_in_order _ _ _ _ a b) with (3 := Fb b Hb) (2 := Fa a Ha).
    lia.
  - apply flat_map_heading_items_sorted, clusters_of_descend.
  - apply IH.
Qed.

(** The items of the page loop are in order as they are appended. *)
Lemma process_pages_outline_sorted (max_pages : Z) (pages : list (list Element)) :
  StronglySorted item_in_order (outline (process_pages max_pages pages)).
Proof.
  rewrite process_pages_outline.
  destruct (slice_to max_pages pages) as [|first later]; [constructor|].
  apply StronglySorted_app. split; [|split].
  - intros a b Ha Hb. apply list_elem_of_In in Ha, Hb.
    pose proof (first_page_items_on_page (clusters_of first)) as Fa.
    pose proof (heading_items_of_pages_on_pages later 1) as Fb.
    rewrite List.Forall_forall in Fa, Fb.
    apply (items_on_pages_in_order _ _ _ _ a b) with (3 := Fb b Hb) (2 := Fa a Ha).
    lia.
  - apply first_page_items_sorted, clusters_of_descend.
  - apply heading_items_of_pages_sorted.
Qed.

Lemma StronglySorted_map_keyed (items : list (gmap string value)) :
  StronglySorted item_in_order items ->
  StronglySorted (in_order before_key) (List.map keyed items).
Proof.
  induction 1 as [|a items Hs IH Ha]; cbn [List.map]; constructor;
    [exact IH|].
  rewrite List.Forall_forall in *. intros k Hk.
  apply in_map_iff in Hk. destruct Hk as (b & <- & Hb). exact (Ha b Hb).
Qed.

(** The sort of the outline moves nothing: the loop appends the items page
    after page and, on a page, from the top downwards, so the entries of
    the output stand in the order in which the loop found them. *)
Theorem outline_is_in_discovery_order (pages : generator (list Element))
    (file_name : str) (all_pages : list (list Element)) :
  list_of pages = inr all_pages ->
  sort_outline (outline (process_pages MAX_PAGES all_pages))
  = inr (outline (process_pages MAX_PAGES all_pages))
  /\ out_outline (extract_pdfminer_outline pages file_name)
     = List.map pop_y0 (outline (process_pages MAX_PAGES all_pages)).
Proof.
  intros Hl.
  assert (Hs : sort_outline (outline (process_pages MAX_PAGES all_pages))
               = inr (outline (process_pages MAX_PAGES all_pages))).
  { unfold sort_outline.
    rewrite (traverse_keys _ _ _ (process_pages_items MAX_PAGES all_pages)).
    cbn [mbind raising_bind mret raising_ret].
    fold before_key.
    rewrite (stable_sort_sorted_id before_key)
      by apply StronglySorted_map_keyed, process_pages_outline_sorted.
    rewrite map_map. cbn [keyed snd]. rewrite map_id. reflexivity. }
  split; [exact Hs|].
  unfold extract_pdfminer_outline, extract_pdfminer_outline_with, try_block.
  rewrite Hl. cbn [mbind raising_bind]. rewrite Hs. reflexivity.
Qed.

End DiscoveryOrder.

Lemma outline_is_in_discovery_order_witness :
  list_of (generator_of sample_pages) = inr sample_pages
  /\ out_outline (@extract_pdfminer_outline ascii_db
                    (generator_of sample_pages) (u "sample.pdf"))
     = List.map pop_y0 (outline (@process_pages ascii_db MAX_PAGES sample_pages)).
Proof.
  split; [reflexivity|].
  apply (@outline_is_in_discovery_order ascii_db (generator_of sample_pages)
           (u "sample.pdf") sample_pages eq_refl).
Defined.

(** ** Markdown rendering *)

Lemma collect_inr {E A B} (f : A -> E + B) (l : list A) (bs : list B) :
  collect f l = inr bs <-> Forall2 (fun a b => f a = inr b) l bs.
Proof.
  revert bs. induction l as [|a l IH]; intros bs; cbn [collect].
  - split; [intros [= <-]; constructor|intros H; inversion H; reflexivity].
  - destruct (f a) as [e|b] eqn:Fa.
    + split; [discriminate|]. intros H. inversion H; subst. congruence.
    + destruct (collect f l) as [e|bs'] eqn:C.
      * split; [discriminate|]. intros H. inversion H as [|? b' ? bs'' Hb Hl];
          subst. apply IH in Hl. discriminate.
      * split.
        -- intros [= <-]. constructor; [exact Fa|]. apply IH. reflexivity.
        -- intros H. inversion H as [|? b' ? bs'' Hb Hl]; subst.
           apply IH in Hl. congruence.
Qed.

Lemma collect_first_error {E A B} (f : A -> E + B) (pre post : list A)
    (a : A) (e : E) :
  Forall (fun x => exists b, f x = inr b) pre -> f a = inl e ->
  collect f (pre ++ a :: post) = inl e.
Proof.
  intros Hpre Ha. induction Hpre as [|x pre [b Hx] _ IH]; cbn [app collect].
  - rewrite Ha. reflexivity.
  - rewrite Hx, IH. reflexivity.
Qed.

Section MarkdownFacts.
Context {F : Formatting}.

Lemma render_item_returns (item : gmap string value) :
  (exists line, render_item item = inr line) <-> renderable item.
Proof.
  unfold render_item, renderable. split.
  - intros [line H].
    destruct (item !! "level") as [[level| |]|] eqn:El; try discriminate.
    destruct level as [|c0 [|c level]]; try discriminate.
    destruct (int_of_char c) as [rank|] eqn:Ei; [|discriminate].
    destruct (item !! "text") as [t|] eqn:Et; [|discriminate].
    destruct (item !! "page") as [p|] eqn:Ep; [|discriminate].
    exists (c0 :: c :: level), c, rank. repeat split; eauto.
  - intros (level & c & rank & El & Ec & Ei & [t Et] & [p Ep]).
    rewrite El. destruct level as [|c0 [|c' level]]; try discriminate.
    cbn in Ec. injection Ec as ->. rewrite Ei, Et, Ep. eauto.
Qed.

(** [outline_to_markdown] returns exactly when every item has a level whose
    second character [int] reads, a text and a page; otherwise it raises
    what the first item that cannot be rendered raises. *)
Theorem outline_to_markdown_returns_iff (outline_ : list (gmap string value)) :
  ((exists md, outline_to_markdown outline_ = inr md) <->
   Forall renderable outline_)
  /\ (forall pre item post e,
        outline_ = pre ++ item :: post ->
        Forall renderable pre -> render_item item = inl e ->
        outline_to_markdown outline_ = inl e).
Proof.
  unfold outline_to_markdown. split.
  - split.
    + intros [md H].
      destruct (collect render_item outline_) as [e|lines] eqn:C;
        [discriminate|].
      apply collect_inr in C. clear H.
      induction C as [|item line items lines Hi _ IH]; constructor;
        [|exact IH].
      apply render_item_returns. eauto.
    + intros H.
      assert (C : exists lines, collect render_item outline_ = inr lines).
      { induction H as [|item items Hi _ [lines IH]]; [exists []; reflexivity|].
        apply render_item_returns in Hi. destruct Hi as [line Hi].
        exists (line :: lines). cbn [collect]. rewrite Hi, IH. reflexivity. }
      destruct C as [lines C]. rewrite C. eauto.
  - intros pre item post e -> Hpre He.
    rewrite (collect_first_error render_item pre post item e); [reflexivity| |exact He].
    eapply List.Forall_impl; [|exact Hpre].
    intros x Hx. apply render_item_returns. exact Hx.
Qed.

End MarkdownFacts.

Section MarkdownOfOutline.
Context {U : UnicodeDB} {F : Formatting}.

(** The entries of the output: items of level H1, H2 or H3 without [y0]. *)
Lemma out_outline_shape (pages : generator (list Element)) (file_name : str)
    (all_pages : list (list Element)) :
  list_of pages = inr all_pages ->
  Forall (fun entry =>
            exists level text_ page y,
              entry = pop_y0 (outline_item level text_ page y)
              /\ In level [u "H1"; u "H2"; u "H3"])
    (out_outline (extract_pdfminer_outline pages file_name)).
Proof.
  intros Hl. apply List.Forall_forall. intros entry He.
  destruct (out_outline_origin _ _ _ _ Hl He) as (item & Hin & ->).
  destruct (outline_origin _ _ _ Hin)
    as (i & layout & g & _ & _ & first & others & level & -> & Eh & El & ->).
  eexists _, _, _, _. split; [reflexivity|].
  apply is_heading_size in Eh.
  destruct (get_heading_level_cases (avg_size_of (first :: others)))
    as [[B E]|[[B E]|[[B E]|[[B E]|[B E]]]]];
    rewrite E in El; [| | |exfalso; lra|discriminate El];
    injection El as El'; rewrite <- El'; cbn; auto.
Qed.

Lemma render_extracted_entry (level text_ : str) (page : Z) (y : Q) :
  In level [u "H1"; u "H2"; u "H3"] ->
  exists indent,
    In (level, indent) [(u "H1", 0%nat); (u "H2", 1%nat); (u "H3", 2%nat)]
    /\ render_item (pop_y0 (outline_item level text_ page y))
       = inr (markdown_line indent text_ page).
Proof.
  intros Hlevel. unfold render_item.
  destruct (pop_y0_lookups level text_ page y) as (E1 & E2 & E3 & _).
  rewrite E1, E2, E3.
  destruct Hlevel as [<-|[<-|[<-|[]]]].
  - exists 0%nat. split; [cbn; auto|].
    change (u "H1") with [72%N; 49%N]. cbv beta iota.
    rewrite (int_of_char_ascii 49) by reflexivity. reflexivity.
  - exists 1%nat. split; [cbn; auto|].
    change (u "H2") with [72%N; 50%N]. cbv beta iota.
    rewrite (int_of_char_ascii 50) by reflexivity. reflexivity.
  - exists 2%nat. split; [cbn; auto|].
    change (u "H3") with [72%N; 51%N]. cbv beta iota.
    rewrite (int_of_char_ascii 51) by reflexivity. reflexivity.
Qed.

(** [outline_to_markdown] raises nothing on the outline of an extracted
    document: it gives one line for each entry, in order, joined by
    newlines, and the line of an entry is its dash, text and page behind no
    indentation for H1, two spaces for H2 and four for H3. *)
Theorem extracted_outline_renders (pages : generator (list Element))
    (file_name : str) (all_pages : list (list Element)) :
  list_of pages = inr all_pages ->
  exists lines,
    outline_to_markdown (out_outline (extract_pdfminer_outline pages file_name))
    = inr (join [10%N] lines)
    /\ Forall2 (fun entry line =>
                  exists level text_ page indent,
                    entry !! "level" = Some (VStr level)
                    /\ entry !! "text" = Some (VStr text_)
                    /\ entry !! "page" = Some (VInt page)
                    /\ In (level, indent)
                         [(u "H1", 0%nat); (u "H2", 1%nat); (u "H3", 2%nat)]
                    /\ line = repeat_str (u "  ") indent ++ u "- " ++ text_
                              ++ u " (Page " ++ str_of_int page ++ u ")")
         (out_outline (extract_pdfminer_outline pages file_name)) lines.
Proof.
  intros Hl. pose proof (out_outline_shape pages file_name all_pages Hl) as H.
  unfold outline_to_markdown.
  induction H as [|entry entries (level & t & p & y & -> & Hlevel) _
                    (lines & IH1 & IH2)].
  - exists []. split; [reflexivity|constructor].
  - destruct (render_extracted_entry level t p y Hlevel) as (indent & Hi & Hr).
    exists (markdown_line indent t p :: lines).
    cbn [collect]. rewrite Hr.
    destruct (collect render_item entries) as [e|lines'] eqn:C;
      [discriminate|].
    assert (El : lines' = lines).
    { apply collect_inr in C.
      clear - C IH2 F. revert lines' C.
      induction IH2 as [|entry line entries lines Hx _ IH]; intros lines' C;
        inversion C as [|? line' ? lines'' Hr Hrest]; subst; [reflexivity|].
      f_equal; [|apply IH; exact Hrest].
      destruct Hx as (level & t & p & indent & E1 & E2 & E3 & Hin & ->).
      unfold render_item in Hr. rewrite E1, E2, E3 in Hr.
      destruct Hin as [[= <- <-]|[[= <- <-]|[[= <- <-]|[]]]].
      - change (u "H1") with [72%N; 49%N] in Hr. cbv beta iota in Hr.
        rewrite (int_of_char_ascii 49) in Hr by reflexivity.
        injection Hr as <-. reflexivity.
      - change (u "H2") with [72%N; 50%N] in Hr. cbv beta iota in Hr.
        rewrite (int_of_char_ascii 50) in Hr by reflexivity.
        injection Hr as <-. reflexivity.
      - change (u "H3") with [72%N; 51%N] in Hr. cbv beta iota in Hr.
        rewrite (int_of_char_ascii 51) in Hr by reflexivity.
        injection Hr as <-. reflexivity. }
    subst lines'. split; [reflexivity|].
    constructor; [|exact IH2].
    destruct (pop_y0_lookups level t p y) as (E1 & E2 & E3 & _).
    exists level, t, p, indent. auto.
Qed.

End MarkdownOfOutline.

Lemma extracted_outline_renders_witness :
  list_of (generator_of sample_pages) = inr sample_pages
  /\ exists lines,
       @outline_to_markdown ascii_formatting
         (out_outline (@extract_pdfminer_outline ascii_db
                         (generator_of sample_pages) (u "sample.pdf")))
       = inr (join [10%N] lines).
Proof.
  split; [reflexivity|].
  destruct (@extracted_outline_renders ascii_db ascii_formatting
              (generator_of sample_pages) (u "sample.pdf") sample_pages
              eq_refl) as (lines & Hmd & _).
  exists lines. exact Hmd.
Defined.

Example sample_markdown :
  @outline_to_markdown ascii_formatting
    (out_outline (@extract_pdfminer_outline ascii_db
                    (generator_of sample_pages) (u "sample.pdf")))
  = inr (u "  - 1.1 Background (Page 2)").
Proof. vm_compute. reflexivity. Qed.

(** ** The batch driver *)

Lemma outputs_app (a b : list Event) : outputs (a ++ b) = outputs a ++ outputs b.
Proof.
  induction a as [|ev a IH]; [reflexivity|].
  destruct ev; cbn [app outputs]; rewrite IH; reflexivity.
Qed.

Section BatchFacts.
Context {U : UnicodeDB}.

Lemma outputs_extraction_log (pages : generator (list Element)) (file_name : str) :
  outputs (extraction_log pages file_name) = [].
Proof. unfold extraction_log. destruct (try_block _ _ _); reflexivity. Qed.

Lemma process_pdfs_files (files : list PdfFile) :
  outputs (process_pdfs (inr files)) = outputs (process_files files).
Proof. destruct files; reflexivity. Qed.

(** When every file is read and written without an exception, every file
    found gets its output, in the order found, under the name of its stem
    followed by "_outline.json", also a file on which the collaborator
    fails: its output is the degraded record. *)
Theorem every_file_gets_its_output (files : list PdfFile) :
  Forall io_succeeds files ->
  Forall2 (fun f out =>
             exists pages,
               pdf_read f = inr pages
               /\ out = (pdf_stem f ++ u "_outline.json",
                         extract_pdfminer_outline pages (pdf_name f)))
    files (outputs (process_pdfs (inr files))).
Proof.
  rewrite process_pdfs_files.
  induction 1 as [|f files [[pages Hr] Hd] _ IH]; [constructor|].
  cbn [process_files]. rewrite Hr, Hd.
  rewrite outputs_app, outputs_extraction_log. cbn [app outputs].
  constructor; [|exact IH]. exists pages. split; [exact Hr|reflexivity].
Qed.

(** An exception on reading a file or on writing its output ends the
    batch: the files before it have their outputs, that file and the files
    after it have none, and the last line printed reports the exception. *)
Theorem io_failure_ends_the_batch (pre post : list PdfFile) (f : PdfFile)
    (e : io_error) :
  Forall io_succeeds pre ->
  io_raises f e ->
  outputs (process_pdfs (inr (pre ++ f :: post)))
  = outputs (process_pdfs (inr pre))
  /\ last (process_pdfs (inr (pre ++ f :: post)))
     = Some (PrintErrorProcessingFiles e).
Proof.
  intros Hpre Hf.
  assert (H : outputs (process_files (pre ++ f :: post))
              = outputs (process_files pre)
              /\ last (process_files (pre ++ f :: post))
                 = Some (PrintErrorProcessingFiles e)).
  { induction Hpre as [|g pre [[pages Hr] Hd] _ [IH1 IH2]].
    - cbn [app process_files outputs].
      destruct Hf as [Hr|[[pages Hr] Hd]]; rewrite Hr; [split; reflexivity|].
      rewrite Hd. rewrite outputs_app, outputs_extraction_log.
      split; [reflexivity|]. rewrite last_app. reflexivity.
    - cbn [app process_files]. rewrite Hr, Hd.
      rewrite !outputs_app, !outputs_extraction_log. cbn [app outputs].
      rewrite IH1. split; [reflexivity|].
      destruct (process_files (pre ++ f :: post)) as [|ev evs] eqn:E;
        [discriminate|].
      rewrite last_app, !last_cons_cons, IH2. reflexivity. }
  destruct H as [H1 H2]. rewrite !process_pdfs_files. split; [exact H1|].
  destruct pre; exact H2.
Qed.

End BatchFacts.

Lemma every_file_gets_its_output_witness :
  Forall io_succeeds [malformed_file; sample_file]
  /\ Forall2 (fun f out =>
                exists pages,
                  pdf_read f = inr pages
                  /\ out = (pdf_stem f ++ u "_outline.json",
                            @extract_pdfminer_outline ascii_db pages (pdf_name f)))
       [malformed_file; sample_file]
       (outputs (@process_pdfs ascii_db (inr [malformed_file; sample_file]))).
Proof.
  assert (H : Forall io_succeeds [malformed_file; sample_file]).
  { repeat constructor; eexists; reflexivity. }
  split; [exact H|].
  exact (@every_file_gets_its_output ascii_db _ H).
Defined.

(** The output of a file on which the collaborator fails is written all the
    same. *)
Example malformed_file_is_written :
  outputs (@process_pdfs ascii_db (inr [malformed_file; sample_file]))
  = [(u "malformed_outline.json",
      {| out_title := u "malformed.pdf"; out_outline := [] |});
     (u "sample_outline.json",
      {| out_title := u "Real Title";
         out_outline :=
           [pop_y0 (outline_item (u "H2") (u "1.1 Background") 2 600%Q)] |})].
Proof. vm_compute. reflexivity. Qed.

Lemma io_failure_ends_the_batch_witness :
  Forall io_succeeds [malformed_file]
  /\ io_raises unreadable_file (OSError "Permission denied")
  /\ outputs (@process_pdfs ascii_db
                (inr ([malformed_file] ++ unreadable_file :: [sample_file])))
     = outputs (@process_pdfs ascii_db (inr [malformed_file])).
Proof.
  assert (H : Forall io_succeeds [malformed_file]).
  { repeat constructor; eexists; reflexivity. }
  assert (R : io_raises unreadable_file (OSError "Permission denied")).
  { left. reflexivity. }
  split; [exact H|]. split; [exact R|].
  apply (@io_failure_ends_the_batch ascii_db [malformed_file] [sample_file]
           unreadable_file (OSError "Permission denied") H R).
Defined.

(** ** No heading of a later page is lost *)

Section Completeness.
Context {U : UnicodeDB}.

Lemma heading_items_of_pages_member (pages : list (list Element)) :
  forall (start : Z) (j : nat) layout g item,
    pages !! j = Some layout -> In g (clusters_of layout) ->
    In item (heading_items (start + Z.of_nat j) g) ->
    In item (heading_items_of_pages start pages).
Proof.
  induction pages as [|p pages IH]; intros start j layout g item Hj Hg Hi;
    [rewrite lookup_nil in Hj; discriminate|].
  cbn [heading_items_of_pages]. apply in_or_app.
  destruct j as [|j].
  - cbn in Hj. injection Hj as ->. left. apply in_flat_map.
    exists g. split; [exact Hg|]. rewrite Z.add_0_r in Hi. exact Hi.
  - right. apply (IH (start + 1) j layout g item); [exact Hj|exact Hg|].
    replace (start + 1 + Z.of_nat j) with (start + Z.of_nat (S j)) by lia.
    exact Hi.
Qed.

(** Every group of a page from the second to the 50th that [is_heading]
    accepts has its entry in the output, with the merged text of the
    group, the number of the page and the level of the mean size. *)
Theorem headings_of_later_pages_are_kept (pages : generator (list Element))
    (file_name : str) (all_pages : list (list Element)) (i : nat)
    (layout : list Element) (g : list Box) :
  list_of pages = inr all_pages ->
  all_pages !! i = Some layout -> (1 <= i < 50)%nat ->
  g ∈ clusters_of layout ->
  is_heading (merged_text_of g) (avg_size_of g) = true ->
  exists entry level,
    entry ∈ out_outline (extract_pdfminer_outline pages file_name)
    /\ get_heading_level (avg_size_of g) = Some level
    /\ entry !! "level" = Some (VStr level)
    /\ entry !! "text" = Some (VStr (merged_text_of g))
    /\ entry !! "page" = Some (VInt (Z.of_nat i + 1)).
Proof.
  intros Hl Hi Hrange Hg Eh. apply list_elem_of_In in Hg.
  destruct g as [|first others].
  { exfalso. unfold clusters_of, group_boxes_by_y in Hg.
    rewrite group_boxes_by_y_with_chained in Hg.
    pose proof (chained_groups_nonempty Y_THRESHOLD
                  (sort_boxes (boxes_of_layout layout))) as N.
    rewrite List.Forall_forall in N. exact (N [] Hg eq_refl). }
  pose proof (is_heading_size _ _ Eh) as Hsz.
  assert (Hlevel : exists c level',
             get_heading_level (avg_size_of (first :: others))
             = Some (c :: level')).
  { destruct (get_heading_level_cases (avg_size_of (first :: others)))
      as [[B E]|[[B E]|[[B E]|[[B E]|[B E]]]]];
      try (exfalso; lra); rewrite E; eexists _, _; reflexivity. }
  destruct Hlevel as (c & level' & El).
  set (item := outline_item (c :: level') (merged_text_of (first :: others))
                 (Z.of_nat i + 1) (min_y0_of first others)).
  assert (Hitem : In item (heading_items (Z.of_nat i) (first :: others))).
  { unfold heading_items. rewrite Eh, El. left. reflexivity. }
  assert (Hout : In item (outline (process_pages MAX_PAGES all_pages))).
  { rewrite process_pages_outline, slice_to_MAX_PAGES.
    destruct i as [|j]; [lia|].
    destruct all_pages as [|p0 later]; [discriminate|].
    cbn [firstn]. apply in_or_app. right. cbn in Hi.
    apply (heading_items_of_pages_member _ 1 j layout (first :: others));
      [|exact Hg|].
    - apply lookup_take_Some. split; [exact Hi|lia].
    - replace (1 + Z.of_nat j) with (Z.of_nat (S j)) by lia. exact Hitem. }
  destruct (extract_returns pages file_name all_pages Hl)
    as (sorted & Hp & _ & E).
  exists (pop_y0 item), (c :: level'). rewrite E. cbn [out_outline].
  split.
  - apply list_elem_of_In, in_map. apply list_elem_of_In. rewrite Hp.
    apply list_elem_of_In. exact Hout.
  - split; [exact El|]. unfold item.
    destruct (pop_y0_lookups (c :: level') (merged_text_of (first :: others))
                (Z.of_nat i + 1) (min_y0_of first others))
      as (H1 & H2 & H3 & _).
    auto.
Qed.

End Completeness.

Lemma headings_of_later_pages_are_kept_witness :
  list_of (generator_of sample_pages) = inr sample_pages
  /\ sample_pages !! 1%nat = Some heading_page
  /\ (1 <= 1 < 50)%nat
  /\ [sample_box "1.1 Background" 14 600] ∈ clusters_of heading_page
  /\ @is_heading ascii_db
       (merged_text_of [sample_box "1.1 Background" 14 600])
       (avg_size_of [sample_box "1.1 Background" 14 600]) = true
  /\ exists entry level,
       entry ∈ out_outline (@extract_pdfminer_outline ascii_db
                              (generator_of sample_pages) (u "sample.pdf"))
       /\ get_heading_level (avg_size_of [sample_box "1.1 Background" 14 600])
          = Some level
       /\ entry !! "level" = Some (VStr level)
       /\ entry !! "text"
          = Some (VStr (merged_text_of [sample_box "1.1 Background" 14 600]))
       /\ entry !! "page" = Some (VInt (Z.of_nat 1 + 1)).
Proof.
  assert (Hg : [sample_box "1.1 Background" 14 600] ∈ clusters_of heading_page).
  { apply list_elem_of_In. vm_compute. left. reflexivity. }
  assert (Hh : @is_heading ascii_db
                 (merged_text_of [sample_box "1.1 Background" 14 600])
                 (avg_size_of [sample_box "1.1 Background" 14 600]) = true).
  { vm_compute. reflexivity. }
  split; [reflexivity|]. split; [reflexivity|]. split; [lia|].
  split; [exact Hg|]. split; [exact Hh|].
  apply (@headings_of_later_pages_are_kept ascii_db
           (generator_of sample_pages) (u "sample.pdf") sample_pages 1%nat
           heading_page [sample_box "1.1 Background" 14 600]
           eq_refl eq_refl);
    [lia|exact Hg|exact Hh].
Defined.

(** Boxes at 30, 20 and 10: one group under the threshold 10, three groups
    under a negative threshold. *)
Example threshold_extremes_sample :
  group_boxes_by_y_with 10
    [sample_box "a" 12 10; sample_box "b" 12 30; sample_box "c" 12 20]
  = [[sample_box "b" 12 30; sample_box "c" 12 20; sample_box "a" 12 10]]
  /\ group_boxes_by_y_with (-1)
       [sample_box "a" 12 10; sample_box "b" 12 30; sample_box "c" 12 20]
     = [[sample_box "b" 12 30]; [sample_box "c" 12 20]; [sample_box "a" 12 10]].
Proof. split; vm_compute; reflexivity. Qed.
